(** * uc-intg-cctv: snapshot client, stream loop, media player and selector

    A shallow embedding of the Python sources under [src/uc_intg_cctv]
    ([client.py], [media_player.py], [camera_select.py]) together with the
    properties stated about them.

    Conventions.
    - Python [bytes] are [list byte]; Python [str] is [string]; Python
      [int] is [Z]; a Python [float] is a binary64 [spec_float].
    - A Python [dict] keyed by camera name is a [gmap string _].
    - [Optional[T]] is [option T]; the falsy values tested by [not x] are
      written out ([None], the empty string, the empty list).
    - Coroutines are run to completion between two scheduling points: a
      command handler is one state transformer, and one iteration of the
      polling loop is one state transformer driven by a [tick_env] that
      records what the awaited calls of that iteration did.
    - What belongs to libraries (the JPEG encoder, the HTTP exchange, the
      remote's API) is a parameter or a record of what it was told. *)

From Stdlib Require Import ZArith List Bool Lia.
From Stdlib.Strings Require Import Byte.
From Stdlib Require Import SpecFloat.
From stdpp Require Import base option list strings gmap.

Local Open Scope Z_scope.

(* ===================================================================== *)
(** * Python floats

    A Python [float] is an IEEE 754 binary64 number.  [spec_float] with
    precision 53 and maximal exponent 1024 is the standard library's
    specification of that format: [SFdiv] and [SFmul] round the exact
    quotient and product to the nearest, ties to even, and
    [binary_normalize] does the same to an integer. *)
(* ===================================================================== *)

Module Binary64.

(** [float(n)]. *)
Definition of_int (n : Z) : spec_float := binary_normalize 53 1024 n 0 false.

(** [int(x)]: truncation towards zero; [None] where Python raises
    ([OverflowError] for an infinity, [ValueError] for a NaN). *)
Definition to_int (x : spec_float) : option Z :=
  match x with
  | S754_zero _ => Some 0
  | S754_finite s m e =>
      let a := if 0 <=? e then Zpos m * 2 ^ e else Zpos m / 2 ^ (- e) in
      Some (if s then - a else a)
  | S754_infinity _ | S754_nan => None
  end.

Definition is_zero (x : spec_float) : bool :=
  match x with S754_zero _ => true | _ => false end.

(** [x / y]; [None] is [ZeroDivisionError]. *)
Definition truediv (x y : spec_float) : option spec_float :=
  if is_zero y then None else Some (SFdiv 53 1024 x y).

(** ** Vocabulary for the statements about rounding *)

(** Something was shifted out of the record [a]. *)
Definition sticky (a : shr_record) : bool := shr_r a || shr_s a.

(** [b] is [a] shifted right by [k] bits: its mantissa is the quotient,
    and nothing was lost exactly when the bits shifted out were zero. *)
Definition shifted (k : Z) (a b : shr_record) : Prop :=
  shr_m b = shr_m a / 2 ^ k /\
  (sticky b = false <-> shr_m a mod 2 ^ k = 0 /\ sticky a = false).

(** The mantissa of [320 / 240], whose exponent is [-52]. *)
Definition mc : positive := 6004799503160661.

End Binary64.

(* ===================================================================== *)
(** * client.py *)
(* ===================================================================== *)

Module Client.

Abbreviation bytes := (list Byte.byte).

(** [bytes.startswith(prefix)] *)
Fixpoint startswith (data prefix : bytes) {struct prefix} : bool :=
  match prefix, data with
  | [], _ => true
  | _ :: _, [] => false
  | p :: prefix', d :: data' => Byte.eqb d p && startswith data' prefix'
  end.

(** [b'\xff\xd8\xff'] *)
Definition JPEG_SOI : bytes := [Byte.xff; Byte.xd8; Byte.xff].

(** [b'\x89PNG\r\n\x1a\n'] *)
Definition PNG_SIGNATURE : bytes :=
  [Byte.x89; Byte.x50; Byte.x4e; Byte.x47; Byte.x0d; Byte.x0a; Byte.x1a; Byte.x0a].

(** [len(data)] as a Python integer. *)
Definition len (data : bytes) : Z := Z.of_nat (length data).

(** [SecurityCameraClient._is_valid_image] *)
Definition _is_valid_image (data : bytes) : bool :=
  if startswith data JPEG_SOI then 1000 <? len data
  else if startswith data PNG_SIGNATURE then 1000 <? len data
  else false.

(** What [session.get(url)] delivers. *)
Record response := { status : Z; body : bytes }.

(** What one [get_snapshot] call meets on the network: [connect()] may
    fail, the request may time out or raise, or a response arrives. *)
Inductive exchange :=
| ConnectFailed
| TimedOut
| RequestError
| Responded (r : response).

(** The part of [get_snapshot] that looks at the response. *)
Definition accept_response (r : response) : option bytes :=
  if status r =? 200 then
    if _is_valid_image (body r) then Some (body r) else None
  else None.

(** [SecurityCameraClient.get_snapshot] *)
Definition get_snapshot (x : exchange) : option bytes :=
  match x with
  | ConnectFailed => None
  | TimedOut => None
  | RequestError => None
  | Responded r => accept_response r
  end.

(** ** The quality loop of [optimize_image_for_remote]

    [save q] is the buffer that [resized_image.save(..., quality=q)]
    leaves behind: the JPEG encoder belongs to Pillow and is a parameter.
    [size_kb = output_buffer.tell() / 1024] is a division by a power of
    two, so [size_kb <= max_size_kb] is [tell() <= 1024 * max_size_kb]. *)

Record encoding := { quality : Z; output_buffer : bytes }.

Fixpoint quality_loop (fuel : nat) (save : Z -> bytes) (max_size_kb : Z)
    (st : encoding) : encoding :=
  match fuel with
  | O => st
  | S fuel' =>
      if 20 <? quality st then
        let buf := save (quality st) in
        if len buf <=? 1024 * max_size_kb
        then {| quality := quality st; output_buffer := buf |}
        else quality_loop fuel' save max_size_kb
               {| quality := quality st - 10; output_buffer := buf |}
      else st
  end.

(** [quality = 85], an empty [BytesIO], then the loop.  The guard
    [quality > 20] fails after at most seven rounds. *)
Definition encode_for_remote (save : Z -> bytes) (max_size_kb : Z) : encoding :=
  quality_loop 7 save max_size_kb {| quality := 85; output_buffer := [] |}.

(** ** The new size computed by [optimize_image_for_remote]

    [image.width / image.height] divides two integers: below [2^53] both
    convert to floats exactly and the result is their rounded quotient.
    [target_width / img_ratio] and [target_height * img_ratio] convert the
    integer operand first.  A [None] stands for the exception that makes
    [optimize_image_for_remote] return [None]. *)
Definition resize_dimensions (width height : Z) : option (Z * Z) :=
  let target_width := 320 in
  let target_height := 240 in
  match Binary64.truediv (Binary64.of_int width) (Binary64.of_int height),
        Binary64.truediv (Binary64.of_int target_width)
                         (Binary64.of_int target_height) with
  | Some img_ratio, Some screen_ratio =>
      if SFltb screen_ratio img_ratio then
        match Binary64.truediv (Binary64.of_int target_width) img_ratio with
        | Some x =>
            match Binary64.to_int x with
            | Some new_height => Some (target_width, new_height)
            | None => None
            end
        | None => None
        end
      else
        match Binary64.to_int
                (SFmul 53 1024 (Binary64.of_int target_height) img_ratio) with
        | Some new_width => Some (new_width, target_height)
        | None => None
        end
  | _, _ => None
  end.

(** ** Vocabulary for the statements about the client *)

(** [data] begins with [prefix]. *)
Definition begins_with (data prefix : bytes) : Prop :=
  exists rest, data = prefix ++ rest.

(** The qualities the loop can hand to the encoder, in the order tried. *)
Definition qualities_tried : list Z := [85; 75; 65; 55; 45; 35; 25].

(** The buffer encoded at quality [q] is larger than [max_size_kb]. *)
Definition oversize (save : Z -> bytes) (max_size_kb q : Z) : Prop :=
  1024 * max_size_kb < len (save q).

(** An encoder whose output is too large for 80 KB at every quality, and
    whose output length tells the quality it was called with. *)
Definition always_large (q : Z) : bytes :=
  repeat Byte.x00 (Z.to_nat (81920 + q)).

End Client.

(* ===================================================================== *)
(** * ucapi: the names the entities take from the integration library *)
(* ===================================================================== *)

Module Ucapi.

(** [ucapi.StatusCodes], the three codes the handlers return. *)
Inductive StatusCodes := OK | BAD_REQUEST | SERVER_ERROR.

#[export] Instance StatusCodes_eq_dec : EqDecision StatusCodes.
Proof. solve_decision. Defined.

(** [ucapi.media_player.States] *)
Inductive States :=
| UNAVAILABLE | UNKNOWN | ON | OFF | PLAYING | PAUSED | STANDBY | BUFFERING.

#[export] Instance States_eq_dec : EqDecision States.
Proof. solve_decision. Defined.

(** What an awaited call does to the coroutine that awaits it: it returns,
    it raises an [Exception], or the task is cancelled while suspended in
    it ([asyncio.CancelledError], which is not an [Exception]). *)
Inductive outcome (A : Type) :=
| Returned (a : A)
| Raised
| Cancelled.

Arguments Returned {A} a.
Arguments Raised {A}.
Arguments Cancelled {A}.

End Ucapi.

(* ===================================================================== *)
(** * media_player.py *)
(* ===================================================================== *)

Module MediaPlayer.
Import Ucapi.

(** One entry of [cameras_config]. *)
Record camera_config := {
  name : string;
  snapshot_url : string;
  cfg_refresh_rate : Z
}.

(** [SecurityCameraClient(camera_config)]: the client keeps its
    configuration; its HTTP session plays no part in the entity's state. *)
Record SecurityCameraClient := { config : camera_config }.

(** [self.attributes] of the media player ([MEDIA_TYPE] is the constant
    [VIDEO] and is left out). *)
Record attrs := {
  STATE : States;
  SOURCE_LIST : list string;
  SOURCE : string;
  MEDIA_IMAGE_URL : string;
  MEDIA_TITLE : string;
  MEDIA_ARTIST : string
}.

(** [attrs_to_update] of [_update_remote_state]. *)
Record update := {
  u_STATE : States;
  u_SOURCE : string;
  u_MEDIA_TITLE : string;
  u_MEDIA_IMAGE_URL : string;
  u_MEDIA_ARTIST : string
}.

(** The integration API as the entity sees it: whether
    [configured_entities.contains(self.id)], and the updates it was given
    through [configured_entities.update_attributes], latest first. *)
Record api := {
  configured : bool;
  updates : list update
}.

(** The coroutine [_image_stream_loop] once wrapped in [asyncio.create_task]:
    whether it is still running, and its local [consecutive_failures]. *)
Record task := {
  alive : bool;
  consecutive_failures : Z
}.

(** [SecurityCameraMediaPlayer].  [tasks] is the event loop's table of the
    tasks this entity created, in creation order; [stream_task] refers to
    one of them by position. *)
Record player := {
  _api : option api;
  clients : gmap string SecurityCameraClient;
  attributes : attrs;
  current_source : string;
  current_client : option SecurityCameraClient;
  is_streaming : bool;
  stream_task : option nat;
  last_image_update : Z;
  tasks : list task
}.

Definition max_failures : Z := 5.

(** ** Field updates *)

Definition with_api (a : option api) (p : player) : player :=
  {| _api := a; clients := clients p; attributes := attributes p;
     current_source := current_source p; current_client := current_client p;
     is_streaming := is_streaming p; stream_task := stream_task p;
     last_image_update := last_image_update p; tasks := tasks p |}.

Definition with_attributes (a : attrs) (p : player) : player :=
  {| _api := _api p; clients := clients p; attributes := a;
     current_source := current_source p; current_client := current_client p;
     is_streaming := is_streaming p; stream_task := stream_task p;
     last_image_update := last_image_update p; tasks := tasks p |}.

Definition with_current (s : string) (c : option SecurityCameraClient)
    (p : player) : player :=
  {| _api := _api p; clients := clients p; attributes := attributes p;
     current_source := s; current_client := c;
     is_streaming := is_streaming p; stream_task := stream_task p;
     last_image_update := last_image_update p; tasks := tasks p |}.

Definition with_is_streaming (b : bool) (p : player) : player :=
  {| _api := _api p; clients := clients p; attributes := attributes p;
     current_source := current_source p; current_client := current_client p;
     is_streaming := b; stream_task := stream_task p;
     last_image_update := last_image_update p; tasks := tasks p |}.

Definition with_stream_task (h : option nat) (p : player) : player :=
  {| _api := _api p; clients := clients p; attributes := attributes p;
     current_source := current_source p; current_client := current_client p;
     is_streaming := is_streaming p; stream_task := h;
     last_image_update := last_image_update p; tasks := tasks p |}.

Definition with_last_image_update (t : Z) (p : player) : player :=
  {| _api := _api p; clients := clients p; attributes := attributes p;
     current_source := current_source p; current_client := current_client p;
     is_streaming := is_streaming p; stream_task := stream_task p;
     last_image_update := t; tasks := tasks p |}.

Definition with_tasks (ts : list task) (p : player) : player :=
  {| _api := _api p; clients := clients p; attributes := attributes p;
     current_source := current_source p; current_client := current_client p;
     is_streaming := is_streaming p; stream_task := stream_task p;
     last_image_update := last_image_update p; tasks := ts |}.

Definition set_STATE (s : States) (a : attrs) : attrs :=
  {| STATE := s; SOURCE_LIST := SOURCE_LIST a; SOURCE := SOURCE a;
     MEDIA_IMAGE_URL := MEDIA_IMAGE_URL a; MEDIA_TITLE := MEDIA_TITLE a;
     MEDIA_ARTIST := MEDIA_ARTIST a |}.

Definition set_SOURCE (s : string) (a : attrs) : attrs :=
  {| STATE := STATE a; SOURCE_LIST := SOURCE_LIST a; SOURCE := s;
     MEDIA_IMAGE_URL := MEDIA_IMAGE_URL a; MEDIA_TITLE := MEDIA_TITLE a;
     MEDIA_ARTIST := MEDIA_ARTIST a |}.

Definition set_MEDIA_IMAGE_URL (s : string) (a : attrs) : attrs :=
  {| STATE := STATE a; SOURCE_LIST := SOURCE_LIST a; SOURCE := SOURCE a;
     MEDIA_IMAGE_URL := s; MEDIA_TITLE := MEDIA_TITLE a;
     MEDIA_ARTIST := MEDIA_ARTIST a |}.

Definition set_MEDIA_TITLE (s : string) (a : attrs) : attrs :=
  {| STATE := STATE a; SOURCE_LIST := SOURCE_LIST a; SOURCE := SOURCE a;
     MEDIA_IMAGE_URL := MEDIA_IMAGE_URL a; MEDIA_TITLE := s;
     MEDIA_ARTIST := MEDIA_ARTIST a |}.

Definition set_MEDIA_ARTIST (s : string) (a : attrs) : attrs :=
  {| STATE := STATE a; SOURCE_LIST := SOURCE_LIST a; SOURCE := SOURCE a;
     MEDIA_IMAGE_URL := MEDIA_IMAGE_URL a; MEDIA_TITLE := MEDIA_TITLE a;
     MEDIA_ARTIST := s |}.

(** ** [__init__] *)

(** The loop [self.clients[camera_name] = SecurityCameraClient(camera_config)]:
    a later entry with the same name replaces an earlier one. *)
Definition build_clients (cameras_config : list camera_config)
    : gmap string SecurityCameraClient :=
  foldl (fun m c => <[name c := {| config := c |}]> m) ∅ cameras_config.

Definition init (integration_api : option api)
    (cameras_config : list camera_config) : player :=
  let clients := build_clients cameras_config in
  let source_list := map name cameras_config in
  let current_source := match source_list with [] => "" | s :: _ => s end in
  {| _api := integration_api;
     clients := clients;
     attributes :=
       {| STATE := OFF; SOURCE_LIST := source_list; SOURCE := current_source;
          MEDIA_IMAGE_URL := ""; MEDIA_TITLE := current_source;
          MEDIA_ARTIST := "Camera View" |};
     current_source := current_source;
     current_client :=
       if bool_decide (current_source = "") then None
       else clients !! current_source;
     is_streaming := false;
     stream_task := None;
     last_image_update := 0;
     tasks := [] |}.

(** ** [is_on] *)
Definition is_on (p : player) : bool :=
  match STATE (attributes p) with
  | PLAYING | ON => true
  | _ => false
  end.

(** ** [_update_remote_state] *)
Definition attrs_to_update (a : attrs) : update :=
  {| u_STATE := STATE a; u_SOURCE := SOURCE a; u_MEDIA_TITLE := MEDIA_TITLE a;
     u_MEDIA_IMAGE_URL := MEDIA_IMAGE_URL a; u_MEDIA_ARTIST := MEDIA_ARTIST a |}.

Definition _update_remote_state (p : player) : player :=
  match _api p with
  | None => p
  | Some a =>
      if configured a then
        with_api (Some {| configured := configured a;
                          updates := attrs_to_update (attributes p) :: updates a |}) p
      else p
  end.

(** ** [start_image_streaming] *)
Definition start_image_streaming (p : player) : player :=
  if is_streaming p then p
  else match current_client p with
       | None => p
       | Some _ =>
           with_tasks (tasks p ++ [{| alive := true; consecutive_failures := 0 |}])
             (with_stream_task (Some (length (tasks p)))
                (with_is_streaming true p))
       end.

(** [task.cancel()] followed by [await task]: the coroutine is resumed with
    [CancelledError] at the call it is suspended in and has finished when
    the [await] returns.  A position outside the table is left alone. *)
Definition cancel_and_await (i : nat) (ts : list task) : list task :=
  match ts !! i with
  | Some t => <[i := {| alive := false;
                        consecutive_failures := consecutive_failures t |}]> ts
  | None => ts
  end.

(** ** [stop_image_streaming] *)
Definition stop_image_streaming (p : player) : player :=
  let p := with_is_streaming false p in
  match stream_task p with
  | Some i => with_stream_task None (with_tasks (cancel_and_await i (tasks p)) p)
  | None => p
  end.

(** ** [_handle_stream_failure] *)
Definition _handle_stream_failure (p : player) : player :=
  let a := set_MEDIA_IMAGE_URL ""
             (set_MEDIA_ARTIST "Camera Offline"
                (set_STATE UNAVAILABLE (attributes p))) in
  with_is_streaming false (_update_remote_state (with_attributes a p)).

(** ** [_turn_on] *)
Definition _turn_on (p : player) : StatusCodes * player :=
  match current_client p with
  | None => (BAD_REQUEST, p)
  | Some _ =>
      let a := set_MEDIA_TITLE (current_source p)
                 (set_STATE PLAYING (attributes p)) in
      (OK, start_image_streaming (_update_remote_state (with_attributes a p)))
  end.

(** ** [_turn_off] *)
Definition _turn_off (p : player) : StatusCodes * player :=
  let p := stop_image_streaming p in
  let a := set_MEDIA_IMAGE_URL "" (set_STATE OFF (attributes p)) in
  (OK, _update_remote_state (with_attributes a p)).

(** ** [_select_source]

    [source_name] is [params.get("source")], which is [None] when the key is
    missing.  [not source_name] holds for [None] and for the empty string. *)
Definition _select_source (source_name : option string) (p : player)
    : StatusCodes * player :=
  match source_name with
  | None => (BAD_REQUEST, p)
  | Some source_name =>
      if bool_decide (source_name = "") then (BAD_REQUEST, p)
      else match clients p !! source_name with
      | None => (BAD_REQUEST, p)
      | Some c =>
          let was_streaming := is_streaming p in
          let p := if was_streaming then stop_image_streaming p else p in
          let p := with_current source_name (Some c) p in
          let a := set_MEDIA_TITLE source_name
                     (set_SOURCE source_name (attributes p)) in
          let p := _update_remote_state (with_attributes a p) in
          (* await asyncio.sleep(0.1) *)
          if is_on p then (OK, start_image_streaming p) else (OK, p)
      end
  end.

(** ** [handle_command] *)
Inductive Commands := CMD_ON | CMD_OFF | CMD_SELECT_SOURCE | CMD_OTHER (c : string).

Definition handle_command (command : Commands) (source : option string)
    (p : player) : StatusCodes * player :=
  match command with
  | CMD_ON => _turn_on p
  | CMD_OFF => _turn_off p
  | CMD_SELECT_SOURCE => _select_source source p
  | CMD_OTHER _ => (BAD_REQUEST, p)
  end.

(** ** [disconnect] *)
Definition disconnect (p : player) : player := stop_image_streaming p.

(** ** [_image_stream_loop]

    One iteration of the [while] loop, run by the task at position [i].
    [tick_env] says what the iteration's awaited calls did:
    [snapshot] for [await self.current_client.get_snapshot()], [optimized]
    for [await self.current_client.optimize_image_for_remote(image_data, 80)],
    [now] for [time.time()], and [sleep_cancelled] for whichever
    [asyncio.sleep] ends the iteration. *)
Record tick_env := {
  snapshot : outcome Client.exchange;
  optimized : outcome (option string);
  now : Z;
  sleep_cancelled : bool
}.

(** The coroutine returns (or an exception leaves it): the task is done. *)
Definition finish (i : nat) (p : player) : player :=
  with_tasks (cancel_and_await i (tasks p)) p.

Definition set_failures (i : nat) (n : Z) (p : player) : player :=
  match tasks p !! i with
  | Some t => with_tasks (<[i := {| alive := alive t;
                                    consecutive_failures := n |}]> (tasks p)) p
  | None => p
  end.

Definition failures (i : nat) (p : player) : Z :=
  match tasks p !! i with
  | Some t => consecutive_failures t
  | None => 0
  end.

(** [consecutive_failures += 1] *)
Definition bump (i : nat) (p : player) : player :=
  set_failures i (failures i p + 1) p.

(** The end of the [try] body: the threshold test, then
    [await asyncio.sleep(self.refresh_rate)]. *)
Definition after_body (env : tick_env) (i : nat) (p : player) : player :=
  if max_failures <=? failures i p then finish i (_handle_stream_failure p)
  else if sleep_cancelled env then finish i p
  else p.

(** [except Exception]: count, test the threshold, [await asyncio.sleep(5)].
    A cancellation that arrives in this sleep is raised inside the handler
    and leaves the coroutine. *)
Definition on_exception (env : tick_env) (i : nat) (p : player) : player :=
  let p := bump i p in
  if max_failures <=? failures i p then finish i (_handle_stream_failure p)
  else if sleep_cancelled env then finish i p
  else p.

(** The branch [if optimized_image:]; the empty string is falsy. *)
Definition truthy (s : option string) : option string :=
  match s with
  | Some s => if bool_decide (s = "") then None else Some s
  | None => None
  end.

Definition _image_stream_loop_iter (env : tick_env) (i : nat) (p : player)
    : player :=
  match tasks p !! i with
  | None => p
  | Some t =>
      if negb (alive t) then p
      else if negb (is_streaming p && bool_decide (is_Some (current_client p)))
      then finish i p
      else if negb (is_on p) then finish i p
      else
        match snapshot env with
        | Cancelled => finish i p
        | Raised => on_exception env i p
        | Returned x =>
            match Client.get_snapshot x with
            | None | Some [] => after_body env i (bump i p)
            | Some (_ :: _) =>
                match optimized env with
                | Cancelled => finish i p
                | Raised => on_exception env i p
                | Returned o =>
                    match truthy o with
                    | None => after_body env i (bump i p)
                    | Some optimized_image =>
                        let a := set_MEDIA_IMAGE_URL
                                   ("data:image/jpeg;base64," +:+ optimized_image)
                                   (attributes p) in
                        let p := with_last_image_update (now env)
                                   (with_attributes a p) in
                        let p := _update_remote_state p in
                        after_body env i (set_failures i 0 p)
                    end
                end
            end
        end
  end.

(** ** What can happen to the entity *)
Inductive event :=
| Command (command : Commands) (source : option string)
| Iteration (env : tick_env) (i : nat)
| Disconnect.

Definition step (e : event) (p : player) : player :=
  match e with
  | Command c s => snd (handle_command c s p)
  | Iteration env i => _image_stream_loop_iter env i p
  | Disconnect => disconnect p
  end.

Definition run (es : list event) (p : player) : player :=
  foldl (fun p e => step e p) p es.

(** ** Vocabulary for the statements about the entity *)

(** The number of polling tasks that are running. *)
Definition alive_tasks (p : player) : nat :=
  length (filter (fun t => alive t = true) (tasks p)).

(** The entity has an API and is among its configured entities. *)
Definition subscribed (p : player) : bool :=
  match _api p with
  | Some a => configured a
  | None => false
  end.

(** What the remote was sent, latest first. *)
Definition published (p : player) : list update :=
  match _api p with
  | Some a => updates a
  | None => []
  end.

(** What [_update_remote_state] adds to [published]. *)
Definition publication (p : player) : list update :=
  if subscribed p then [attrs_to_update (attributes p)] else [].

(** A task that was just created. *)
Definition fresh_task : task := {| alive := true; consecutive_failures := 0 |}.

(** The task at position [i] has finished. *)
Definition finished (i : nat) (p : player) : Prop :=
  exists t, tasks p !! i = Some t /\ alive t = false.

(** The task at position [i] is in the middle of its loop: it is alive and
    the conditions it tests before fetching hold. *)
Definition polling (i : nat) (p : player) : Prop :=
  (exists t, tasks p !! i = Some t /\ alive t = true) /\
  is_streaming p = true /\
  is_Some (current_client p) /\
  is_on p = true.

(** How the fetch and the transcoding of one iteration ended: with a
    displayable image, with an ordinary failure (no snapshot, no transcoded
    image, or an exception), or with the task being cancelled in one of the
    two calls. *)
Inductive verdict :=
| Succeeded (optimized_image : string)
| Failed
| Interrupted.

Definition tick_verdict (env : tick_env) : verdict :=
  match snapshot env with
  | Cancelled => Interrupted
  | Raised => Failed
  | Returned x =>
      match Client.get_snapshot x with
      | None | Some [] => Failed
      | Some (_ :: _) =>
          match optimized env with
          | Cancelled => Interrupted
          | Raised => Failed
          | Returned o =>
              match truthy o with
              | None => Failed
              | Some s => Succeeded s
              end
          end
      end
  end.

(** The same iteration with nobody cancelling its final sleep. *)
Definition uncancelled (env : tick_env) : tick_env :=
  {| snapshot := snapshot env; optimized := optimized env; now := now env;
     sleep_cancelled := false |}.

(** [p] is a state the entity can be in: it was constructed and then took
    part in some events. *)
Definition reachable (p : player) : Prop :=
  exists integration_api cameras_config es,
    p = run es (init integration_api cameras_config).

(** Every running task is the one [stream_task] refers to, and then
    [is_streaming] is set. *)
Definition single_owner (p : player) : Prop :=
  forall j, (alive <$> tasks p) !! j = Some true ->
            stream_task p = Some j /\ is_streaming p = true.

(** No task is running. *)
Definition quiet (p : player) : Prop :=
  forall j, (alive <$> tasks p) !! j <> Some true.

(** What an iteration may do to the table of tasks: keep who runs (and the
    entity's stream fields), or end the running task that executed it. *)
Definition keeps_or_ends (i : nat) (p p1 : player) : Prop :=
  (alive <$> tasks p1 = alive <$> tasks p /\
   stream_task p1 = stream_task p /\ is_streaming p1 = is_streaming p) \/
  ((alive <$> tasks p) !! i = Some true /\
   alive <$> tasks p1 = <[i := false]> (alive <$> tasks p)).

(** ** A two-camera installation used in the examples *)

Definition camA : camera_config :=
  {| name := "A"; snapshot_url := "http://10.0.0.2/snap.jpg"; cfg_refresh_rate := 10 |}.
Definition camB : camera_config :=
  {| name := "B"; snapshot_url := "http://10.0.0.3/snap.jpg"; cfg_refresh_rate := 10 |}.

(** An iteration whose request times out. *)
Definition timeout_tick : tick_env :=
  {| snapshot := Returned Client.TimedOut; optimized := Returned None;
     now := 0; sleep_cancelled := false |}.

(** An iteration cancelled while waiting for the camera. *)
Definition cancelled_tick : tick_env :=
  {| snapshot := Cancelled; optimized := Returned None;
     now := 0; sleep_cancelled := false |}.

(** A subscribed entity over the two cameras, just constructed. *)
Definition two_cameras : player :=
  init (Some {| configured := true; updates := [] |}) [camA; camB].

(** ... switched on, after [n] timeouts in a row. *)
Definition after_timeouts (n : nat) : player :=
  run (Command CMD_ON None :: repeat (Iteration timeout_tick 0) n) two_cameras.

End MediaPlayer.

(* ===================================================================== *)
(** * camera_select.py *)
(* ===================================================================== *)

Module CameraSelect.
Import Ucapi.

(** The selector's side of the integration API: whether the selector is
    among the configured entities, and the [CURRENT_OPTION] values it
    published (each with [STATE: ON]), latest first. *)
Record api := {
  configured : bool;
  updates : list string
}.

(** [CameraSelect]: its attributes [OPTIONS] and [CURRENT_OPTION]. *)
Record select := {
  _api : option api;
  OPTIONS : list string;
  CURRENT_OPTION : string
}.

(** The selector holds a reference to the media player, which it calls and
    thereby changes: both objects make up the state. *)
Record entities := {
  selector : select;
  media_player : option MediaPlayer.player
}.

Definition set_CURRENT_OPTION (s : string) (e : select) : select :=
  {| _api := _api e; OPTIONS := OPTIONS e; CURRENT_OPTION := s |}.

(** ** [__init__] *)
Definition init (integration_api : option api)
    (cameras_config : list MediaPlayer.camera_config)
    (media_player : option MediaPlayer.player) : entities :=
  let camera_options := map MediaPlayer.name cameras_config in
  {| selector :=
       {| _api := integration_api;
          OPTIONS := camera_options;
          CURRENT_OPTION := match camera_options with [] => "" | s :: _ => s end |};
     media_player := media_player |}.

(** ** [_update_remote_state] *)
Definition _update_remote_state (e : select) : select :=
  match _api e with
  | None => e
  | Some a =>
      if configured a then
        {| _api := Some {| configured := configured a;
                           updates := CURRENT_OPTION e :: updates a |};
           OPTIONS := OPTIONS e; CURRENT_OPTION := CURRENT_OPTION e |}
      else e
  end.

(** ** [_select_camera] *)
Definition _select_camera (camera_name : option string) (w : entities)
    : StatusCodes * entities :=
  match camera_name with
  | None => (BAD_REQUEST, w)
  | Some camera_name =>
      if bool_decide (camera_name = "")
         || negb (bool_decide (camera_name ∈ OPTIONS (selector w)))
      then (BAD_REQUEST, w)
      else
        let s := _update_remote_state
                   (set_CURRENT_OPTION camera_name (selector w)) in
        match media_player w with
        | Some mp =>
            let '(result, mp) := MediaPlayer._select_source (Some camera_name) mp in
            (result, {| selector := s; media_player := Some mp |})
        | None => (SERVER_ERROR, {| selector := s; media_player := None |})
        end
  end.

(** [list.index]: the first position holding [x], or [ValueError]. *)
Fixpoint index (l : list string) (x : string) : option nat :=
  match l with
  | [] => None
  | y :: l' => if bool_decide (y = x) then Some O else S <$> index l' x
  end.

(** [options[k]]: a negative [k] counts from the end, and [IndexError] is
    [None]. *)
Definition item (l : list string) (k : Z) : option string :=
  if 0 <=? k then l !! Z.to_nat k
  else if 0 <=? Z.of_nat (length l) + k then l !! Z.to_nat (Z.of_nat (length l) + k)
  else None.

(** ** [_select_next_camera] *)
Definition _select_next_camera (w : entities) : StatusCodes * entities :=
  let options := OPTIONS (selector w) in
  let current := CURRENT_OPTION (selector w) in
  match index options current with
  | None => (SERVER_ERROR, w)
  | Some current_index =>
      let next_index := (Z.of_nat current_index + 1) mod Z.of_nat (length options) in
      match item options next_index with
      | None => (SERVER_ERROR, w)
      | Some next_camera => _select_camera (Some next_camera) w
      end
  end.

(** ** [_select_previous_camera] *)
Definition _select_previous_camera (w : entities) : StatusCodes * entities :=
  let options := OPTIONS (selector w) in
  let current := CURRENT_OPTION (selector w) in
  match index options current with
  | None => (SERVER_ERROR, w)
  | Some current_index =>
      let prev_index := (Z.of_nat current_index - 1) mod Z.of_nat (length options) in
      match item options prev_index with
      | None => (SERVER_ERROR, w)
      | Some prev_camera => _select_camera (Some prev_camera) w
      end
  end.

(** ** [_select_first_camera] *)
Definition _select_first_camera (w : entities) : StatusCodes * entities :=
  match OPTIONS (selector w) with
  | [] => (SERVER_ERROR, w)
  | first_camera :: _ => _select_camera (Some first_camera) w
  end.

(** ** [_select_last_camera] *)
Definition _select_last_camera (w : entities) : StatusCodes * entities :=
  match OPTIONS (selector w) with
  | [] => (SERVER_ERROR, w)
  | options => _select_camera (last options) w
  end.

(** ** [handle_command] *)
Inductive Commands :=
| SELECT_OPTION | SELECT_NEXT | SELECT_PREVIOUS | SELECT_FIRST | SELECT_LAST
| CMD_OTHER (c : string).

Definition handle_command (command : Commands) (option : option string)
    (w : entities) : StatusCodes * entities :=
  match command with
  | SELECT_OPTION => _select_camera option w
  | SELECT_NEXT => _select_next_camera w
  | SELECT_PREVIOUS => _select_previous_camera w
  | SELECT_FIRST => _select_first_camera w
  | SELECT_LAST => _select_last_camera w
  | CMD_OTHER _ => (BAD_REQUEST, w)
  end.

(** ** [update_from_media_player] *)
Definition update_from_media_player (camera_name : string) (e : select) : select :=
  if bool_decide (camera_name ∈ OPTIONS e)
  then _update_remote_state (set_CURRENT_OPTION camera_name e)
  else e.

(** ** Vocabulary for the statements about the selector *)

Definition subscribed (e : select) : bool :=
  match _api e with
  | Some a => configured a
  | None => false
  end.

(** The [CURRENT_OPTION] values sent to the remote, latest first. *)
Definition published (e : select) : list string :=
  match _api e with
  | Some a => updates a
  | None => []
  end.

(** A subscribed selector over the options [opts], showing [current]. *)
Definition showing (opts : list string) (current : string) : select :=
  {| _api := Some {| configured := true; updates := [] |};
     OPTIONS := opts; CURRENT_OPTION := current |}.

(** [SelectNext] followed by [SelectPrevious]. *)
Definition next_then_previous (w : entities) : entities :=
  snd (_select_previous_camera (snd (_select_next_camera w))).

End CameraSelect.

(* ===================================================================== *)
(** * Properties of the snapshot client *)
(* ===================================================================== *)

Section SnapshotValidation.
Import Client.

Lemma byte_eqb_eq (a b : Byte.byte) : Byte.eqb a b = true <-> a = b.
Proof.
  split.
  - apply Byte.byte_dec_bl.
  - apply Byte.byte_dec_lb.
Qed.

Lemma startswith_begins_with (prefix data : bytes) :
  startswith data prefix = true <-> begins_with data prefix.
Proof.
  revert data; induction prefix as [|p prefix IH]; intros data; simpl.
  - split; [intros _; now exists data | intros _; reflexivity].
  - destruct data as [|d data].
    + split; [discriminate | intros [rest H]; discriminate].
    + rewrite andb_true_iff, byte_eqb_eq, IH. split.
      * intros [-> [rest ->]]. now exists rest.
      * intros [rest H]. injection H as -> ->. split; [reflexivity | now exists rest].
Qed.

Lemma _is_valid_image_spec (data : bytes) :
  _is_valid_image data = true <->
  (begins_with data JPEG_SOI \/ begins_with data PNG_SIGNATURE) /\ 1000 < len data.
Proof.
  unfold _is_valid_image.
  rewrite <- !startswith_begins_with.
  destruct (startswith data JPEG_SOI), (startswith data PNG_SIGNATURE);
    rewrite ?Z.ltb_lt; intuition congruence.
Qed.

(** C4. A response is accepted (and its body returned) exactly when the
    status is 200, the body begins with the JPEG SOI marker [FF D8 FF] or
    the PNG signature, and the body is longer than 1000 bytes.  Every other
    response, a 200 with at most 1000 bytes among them, yields [None], and
    whatever is returned is the body itself. *)
Theorem get_snapshot_accepts_iff (r : response) :
  (get_snapshot (Responded r) = Some (body r) <->
     status r = 200 /\
     (begins_with (body r) JPEG_SOI \/ begins_with (body r) PNG_SIGNATURE) /\
     1000 < len (body r)) /\
  (get_snapshot (Responded r) = Some (body r) \/ get_snapshot (Responded r) = None) /\
  (status r = 200 /\ len (body r) <= 1000 -> get_snapshot (Responded r) = None).
Proof.
  simpl. unfold accept_response.
  pose proof (_is_valid_image_spec (body r)) as Hv.
  destruct (Z.eqb_spec (status r) 200) as [Hs|Hs].
  - destruct (_is_valid_image (body r)).
    + assert (Hok : (begins_with (body r) JPEG_SOI \/ begins_with (body r) PNG_SIGNATURE)
                    /\ 1000 < len (body r)) by (now apply Hv).
      split; [tauto | split; [now left | lia]].
    + split; [| split; [now right | reflexivity]].
      split; [discriminate |].
      intros [_ H]. apply Hv in H. discriminate.
  - split; [| split; [now right | reflexivity]].
    split; [discriminate | tauto].
Qed.

End SnapshotValidation.

Section QualityLoop.
Import Client.

Lemma quality_loop_stops_below_floor fuel save m st :
  quality st <= 20 -> quality_loop fuel save m st = st.
Proof.
  intros H. destruct fuel; simpl; [reflexivity|].
  destruct (Z.ltb_spec 20 (quality st)); [lia | reflexivity].
Qed.

Lemma quality_loop_round fuel save m q buf :
  20 < q ->
  quality_loop (S fuel) save m {| quality := q; output_buffer := buf |} =
    if len (save q) <=? 1024 * m
    then {| quality := q; output_buffer := save q |}
    else quality_loop fuel save m {| quality := q - 10; output_buffer := save q |}.
Proof.
  intros H. simpl. destruct (Z.ltb_spec 20 q); [reflexivity | lia].
Qed.

Lemma len_always_large q : 0 <= 81920 + q -> len (always_large q) = 81920 + q.
Proof.
  intros H. unfold len, always_large. rewrite repeat_length. lia.
Qed.

(** When every encoding is too large the loop runs through all seven. *)
Lemma encode_all_oversize (save : Z -> bytes) (max_size_kb : Z) :
  (forall q, In q qualities_tried -> oversize save max_size_kb q) ->
  encode_for_remote save max_size_kb = {| quality := 15; output_buffer := save 25 |}.
Proof.
  intros Hall. unfold encode_for_remote.
  assert (Hgo : forall fuel q buf, In q qualities_tried ->
            quality_loop (S fuel) save max_size_kb {| quality := q; output_buffer := buf |} =
            quality_loop fuel save max_size_kb {| quality := q - 10; output_buffer := save q |}).
  { intros fuel q buf Hq. rewrite quality_loop_round by (simpl in Hq; intuition lia).
    specialize (Hall q Hq). unfold oversize in Hall.
    destruct (Z.leb_spec (len (save q)) (1024 * max_size_kb)); [lia | reflexivity]. }
  do 7 (rewrite Hgo by (simpl; tauto); simpl Z.sub).
  reflexivity.
Qed.

(** One round of the loop at quality [q]: either the buffer fits and the
    loop stops, or it goes on at [q']. *)
Ltac quality_round save m q q' :=
  rewrite (quality_loop_round _ save m q) by lia;
  change (q - 10) with q';
  destruct (Z.leb_spec (len (save q)) (1024 * m));
  [ left; simpl; intuition (subst; simpl in *; first [reflexivity | lia]) | ].

(** C2 (as the code has it). Encoding starts at quality 85 and goes down by
    10 while the buffer is larger than [max_size_kb] and the quality is
    still above 20, so the qualities used are 85, 75, ..., 25.  Either the
    loop stops at the first of them whose buffer fits, and that buffer is
    emitted, or all seven are too large: then the buffer of quality 25 is
    emitted and the quality variable is left at 15. *)
Theorem encode_for_remote_spec (save : Z -> bytes) (max_size_kb : Z) :
  let e := encode_for_remote save max_size_kb in
  (In (quality e) qualities_tried /\
   output_buffer e = save (quality e) /\
   len (output_buffer e) <= 1024 * max_size_kb /\
   forall q, In q qualities_tried -> quality e < q -> oversize save max_size_kb q)
  \/
  (quality e = 15 /\
   output_buffer e = save 25 /\
   forall q, In q qualities_tried -> oversize save max_size_kb q).
Proof.
  unfold encode_for_remote, oversize, qualities_tried.
  quality_round save max_size_kb 85 75. quality_round save max_size_kb 75 65.
  quality_round save max_size_kb 65 55. quality_round save max_size_kb 55 45.
  quality_round save max_size_kb 45 35. quality_round save max_size_kb 35 25.
  quality_round save max_size_kb 25 15.
  right. rewrite quality_loop_stops_below_floor by (simpl; lia). simpl.
  intuition (subst; first [reflexivity | lia]).
Qed.

(** C2, the claim as written fails: with an encoder that is always too
    large the loop never encodes at quality 20.  It emits the buffer of
    quality 25, which is larger than 80 KB, and leaves the quality at 15. *)
Lemma quality_floor_is_not_20 :
  let e := encode_for_remote always_large 80 in
  quality e = 15 /\
  output_buffer e = always_large 25 /\
  ~ (len (output_buffer e) <= 80 * 1024 \/ quality e = 20).
Proof.
  assert (E : encode_for_remote always_large 80 =
              {| quality := 15; output_buffer := always_large 25 |}).
  { apply encode_all_oversize. intros q Hq. unfold oversize.
    rewrite len_always_large; simpl in Hq; intuition (subst; lia). }
  cbv zeta. rewrite E. simpl quality. simpl output_buffer.
  split; [reflexivity | split; [reflexivity |]].
  intros [H | H]; [| discriminate].
  rewrite len_always_large in H; lia.
Qed.

End QualityLoop.

(* ===================================================================== *)
(** * Rounding of binary64 numbers *)
(* ===================================================================== *)

Section Binary64Facts.
Import Binary64.

(** ** The number of binary digits *)

Lemma digits2_pos_size p : digits2_pos p = Pos.size p.
Proof. induction p; simpl; congruence. Qed.

(** A number of [d] digits lies between [2^(d-1)] and [2^d]. *)
Lemma digits2_pos_bounds p :
  2 ^ (Zpos (digits2_pos p) - 1) <= Zpos p < 2 ^ Zpos (digits2_pos p).
Proof.
  rewrite digits2_pos_size. split.
  - pose proof (Pos.size_le p) as H.
    assert (H' : 2 ^ Zpos (Pos.size p) <= 2 * Zpos p).
    { change 2 with (Zpos 2) at 1. rewrite <- Pos2Z.inj_pow. 
      change (2 * Zpos p) with (Zpos p~0). now apply Pos2Z.pos_le_pos. }
    replace (Zpos (Pos.size p)) with (Zpos (Pos.size p) - 1 + 1) in H' by lia.
    rewrite Z.pow_add_r in H' by lia. lia.
  - pose proof (Pos.size_gt p) as H.
    change 2 with (Zpos 2). rewrite <- Pos2Z.inj_pow. now apply Pos2Z.pos_lt_pos.
Qed.

Lemma digits2_pos_unique p d :
  2 ^ (d - 1) <= Zpos p < 2 ^ d -> Zpos (digits2_pos p) = d.
Proof.
  intros [H1 H2]. destruct (digits2_pos_bounds p) as [H3 H4].
  assert (0 < d).
  { destruct (Z.le_gt_cases d 0) as [Hd|Hd]; [|assumption].
    assert (2 ^ d <= 2 ^ 0) by (apply Z.pow_le_mono_r; lia). simpl in *. lia. }
  assert (Zpos (digits2_pos p) - 1 < d).
  { apply (Z.pow_lt_mono_r_iff 2); lia. }
  assert (d - 1 < Zpos (digits2_pos p)).
  { apply (Z.pow_lt_mono_r_iff 2); lia. }
  lia.
Qed.

(** ** Shifting a mantissa to the right

    [shr_1] halves the mantissa and remembers in two bits what it dropped;
    [shifted] is what remains of that once the rounding direction is left
    aside: the quotient, and whether anything was dropped at all. *)

Lemma shr_1_shifted a : 0 <= shr_m a -> shifted 1 a (shr_1 a).
Proof.
  destruct a as [m r s]. unfold shifted, sticky. rewrite Z.pow_1_r.
  cbn [shr_m shr_r shr_s]. intros Hm.
  destruct m as [|[p|p|]|p]; cbn [shr_1 shr_m shr_r shr_s orb]; try lia.
  - split; [reflexivity|]. rewrite Z.mod_0_l by lia. intuition.
  - split; [rewrite Pos2Z.inj_xI; apply Z.div_unique with 1; lia|].
    rewrite Pos2Z.inj_xI. replace (2 * Zpos p + 1) with (1 + Zpos p * 2) by lia.
    rewrite Z.mod_add by lia. change (1 mod 2) with 1. intuition; discriminate.
  - split; [rewrite Pos2Z.inj_xO; apply Z.div_unique with 0; lia|].
    rewrite Pos2Z.inj_xO. replace (2 * Zpos p) with (0 + Zpos p * 2) by lia.
    rewrite Z.mod_add by lia. change (0 mod 2) with 0. intuition.
  - split; [reflexivity|]. change (1 mod 2) with 1. intuition; discriminate.
Qed.

Lemma shifted_trans j k a b c :
  0 <= j -> 0 <= k -> 0 <= shr_m a ->
  shifted j a b -> shifted k b c -> shifted (j + k) a c.
Proof.
  intros Hj Hk Ha [Hb1 Hb2] [Hc1 Hc2]. split.
  - rewrite Hc1, Hb1, Z.pow_add_r by lia. apply Z.div_div; lia.
  - rewrite Hc2, Hb2, Hb1, Z.pow_add_r by lia.
    assert (Pj : 0 < 2 ^ j) by (apply Z.pow_pos_nonneg; lia).
    assert (Pk : 0 < 2 ^ k) by (apply Z.pow_pos_nonneg; lia).
    rewrite (Z.rem_mul_r (shr_m a) (2 ^ j) (2 ^ k)) by lia.
    pose proof (Z.mod_pos_bound (shr_m a) (2 ^ j) Pj) as Bj.
    pose proof (Z.mod_pos_bound (shr_m a / 2 ^ j) (2 ^ k) Pk) as Bk.
    split.
    + intros (H1 & H2 & H3). split; [|assumption]. rewrite H1, H2. lia.
    + intros (H1 & H2).
      assert (E1 : (shr_m a / 2 ^ j) mod 2 ^ k = 0) by nia.
      assert (E2 : shr_m a mod 2 ^ j = 0) by nia. tauto.
Qed.

Lemma shifted_nonneg k a b : 0 <= k -> 0 <= shr_m a -> shifted k a b -> 0 <= shr_m b.
Proof.
  intros Hk Ha [H _]. rewrite H. apply Z.div_pos; [assumption|].
  apply Z.pow_pos_nonneg; lia.
Qed.

Lemma iter_pos_shifted p :
  forall a, 0 <= shr_m a ->
            shifted (Zpos p) a (SpecFloat.iter_pos shr_1 p a).
Proof.
  induction p as [p IH|p IH|]; intros a Ha; simpl.
  - pose proof (shr_1_shifted a Ha) as H1.
    pose proof (shifted_nonneg 1 _ _ Z.le_0_1 Ha H1) as Ha1.
    pose proof (IH _ Ha1) as H2.
    pose proof (shifted_nonneg _ _ _ (Pos2Z.is_nonneg p) Ha1 H2) as Ha2.
    pose proof (IH _ Ha2) as H3.
    replace (Zpos p~1) with (1 + (Zpos p + Zpos p)) by lia.
    apply shifted_trans with (shr_1 a); try lia; try assumption.
    apply shifted_trans with (SpecFloat.iter_pos shr_1 p (shr_1 a));
      try lia; assumption.
  - pose proof (IH _ Ha) as H2.
    pose proof (shifted_nonneg _ _ _ (Pos2Z.is_nonneg p) Ha H2) as Ha2.
    pose proof (IH _ Ha2) as H3.
    replace (Zpos p~0) with (Zpos p + Zpos p) by lia.
    apply shifted_trans with (SpecFloat.iter_pos shr_1 p a); try lia; assumption.
  - now apply shr_1_shifted.
Qed.

Lemma shr_spec a e n :
  0 <= n -> 0 <= shr_m a ->
  exists b, shr a e n = (b, e + n) /\ shifted n a b.
Proof.
  intros Hn Ha. destruct n as [|p|p]; [| |lia].
  - exists a. split; [simpl; f_equal; lia|].
    unfold shifted. rewrite Z.pow_0_r, Z.div_1_r, Z.mod_1_r. tauto.
  - exists (SpecFloat.iter_pos shr_1 p a). split; [reflexivity|].
    now apply iter_pos_shifted.
Qed.

(** ** Rounding *)

Lemma sticky_of_loc m l :
  shr_m (shr_record_of_loc m l) = m /\
  (sticky (shr_record_of_loc m l) = false <-> l = loc_Exact).
Proof.
  destruct l as [|[| |]]; simpl; split; try reflexivity;
    unfold sticky; simpl; split; intros; congruence.
Qed.

(** Rounding keeps the mantissa or adds one to it, and keeps it when
    nothing was dropped. *)
Lemma round_nearest_even_spec b :
  let x := round_nearest_even (shr_m b) (loc_of_shr_record b) in
  (x = shr_m b \/ x = shr_m b + 1) /\ (sticky b = false -> x = shr_m b).
Proof.
  destruct b as [m [|] [|]]; unfold sticky; cbv zeta;
    cbn [shr_m shr_r shr_s loc_of_shr_record round_nearest_even orb].
  - split; [auto | discriminate].
  - destruct (Z.even m); split; auto; discriminate.
  - split; [auto | discriminate].
  - split; auto.
Qed.

Lemma fexp_normal x : -1074 <= x - 53 -> fexp 53 1024 x = x - 53.
Proof. intros H. unfold fexp, emin. lia. Qed.

Lemma Zdigits2_bounds m :
  0 < m -> 2 ^ (Zdigits2 m - 1) <= m < 2 ^ Zdigits2 m.
Proof.
  destruct m as [|p|p]; try lia. intros _. apply digits2_pos_bounds.
Qed.

Lemma Zdigits2_unique m d :
  2 ^ (d - 1) <= m < 2 ^ d -> 0 < m -> Zdigits2 m = d.
Proof.
  destruct m as [|p|p]; try lia. intros H _. now apply digits2_pos_unique.
Qed.

(** Rounding a positive number of at least 53 digits, in the range of the
    normal numbers.  The number is [m * 2^e], or lies strictly between that
    and [(m + 1) * 2^e] when the location [l] is not exact.  The result has
    a mantissa of exactly 53 digits, its exponent is [e + k], and it never
    jumps over a multiple [K * 2^(e + k)] of its own unit: no such multiple
    lies strictly between the number and its rounding. *)
Lemma binary_round_aux_spec (m e : Z) (l : location) :
  2 ^ 52 <= m ->
  -1074 <= Zdigits2 m + e - 53 ->
  Zdigits2 m + e <= 1023 ->
  exists (m' : positive) (k : Z),
    binary_round_aux 53 1024 false m e l = S754_finite false m' (e + k) /\
    2 ^ 52 <= Zpos m' < 2 ^ 53 /\
    Zdigits2 m - 53 <= k <= Zdigits2 m - 52 /\
    (forall K, (match l with loc_Exact => m <= K * 2 ^ k | _ => m < K * 2 ^ k end) -> Zpos m' <= K) /\
    (forall K, K * 2 ^ k <= m -> K <= Zpos m').
Proof.
  intros Hm Hlo Hhi.
  assert (Hpos : 0 < m) by (assert (0 < 2 ^ 52) by (now compute); lia).
  pose proof (Zdigits2_bounds m Hpos) as [Hd1 Hd2].
  set (d := Zdigits2 m) in *.
  assert (Hd : 53 <= d).
  { destruct (Z.lt_ge_cases d 53) as [Hlt|]; [|assumption].
    assert (2 ^ d <= 2 ^ 52) by (apply Z.pow_le_mono_r; lia). lia. }
  set (n := d - 53).
  assert (Hn : 0 <= n) by (subst n; lia).
  assert (P52 : 2 ^ 52 = 4503599627370496) by reflexivity.
  assert (P53 : 2 ^ 53 = 9007199254740992) by reflexivity.
  assert (Pn : 0 < 2 ^ n) by (apply Z.pow_pos_nonneg; lia).
  assert (Ed1 : 2 ^ (d - 1) = 2 ^ 52 * 2 ^ n).
  { rewrite <- Z.pow_add_r by lia. f_equal. subst n. lia. }
  assert (Ed : 2 ^ d = 2 ^ 53 * 2 ^ n).
  { rewrite <- Z.pow_add_r by lia. f_equal. subst n. lia. }
  unfold binary_round_aux, shr_fexp.
  fold d. rewrite fexp_normal by lia.
  replace (d + e - 53 - e) with n by (subst n; lia).
  destruct (sticky_of_loc m l) as [Hm0 Hst0].
  destruct (shr_spec (shr_record_of_loc m l) e n Hn ltac:(rewrite Hm0; lia))
    as (b & -> & Hb1 & Hb2).
  rewrite Hm0 in Hb1, Hb2. rewrite Hst0 in Hb2.
  destruct (round_nearest_even_spec b) as [Hr1 Hr2].
  set (m1 := round_nearest_even (shr_m b) (loc_of_shr_record b)) in *.
  assert (Hma : 2 ^ 52 <= shr_m b < 2 ^ 53).
  { rewrite Hb1. split.
    - apply Z.div_le_lower_bound; lia.
    - apply Z.div_lt_upper_bound; lia. }
  pose proof (Z.div_mod m (2 ^ n) ltac:(lia)) as Hdm.
  pose proof (Z.mod_pos_bound m (2 ^ n) Pn) as Hmod.
  rewrite <- Hb1 in Hdm.
  destruct (Z.lt_ge_cases m1 (2 ^ 53)) as [Hlt|Hge].
  - (* the rounded mantissa still has 53 digits *)
    assert (Hd1' : Zdigits2 m1 = 53) by (apply Zdigits2_unique; simpl; lia).
    rewrite Hd1'. rewrite fexp_normal by lia.
    replace (53 + (e + n) - 53 - (e + n)) with 0 by lia.
    cbn [shr shr_record_of_loc shr_m].
    destruct m1 as [|p1|p1] eqn:E1; try lia.
    exists p1, n. 
    assert (Hle : (e + n <=? 1024 - 53) = true) by (apply Z.leb_le; subst n; lia).
    rewrite Hle. split; [reflexivity|]. split; [lia|]. split; [subst n; lia|].
    split.
    + intros K HK.
      destruct (Z.lt_ge_cases (shr_m b) K) as [HbK|HbK]; [lia|].
      assert (HK2 : K * 2 ^ n <= m) by nia.
      destruct l as [|c]; [|lia].
      assert (Hex : m mod 2 ^ n = 0) by nia.
      assert (Hs : sticky b = false) by (apply Hb2; auto).
      specialize (Hr2 Hs). nia.
    + intros K HK. 
      assert (K <= shr_m b) by nia. lia.
  - (* rounding up reached 2^53 *)
    assert (Em1 : m1 = 9007199254740992) by lia.
    rewrite Em1.
    change (Zdigits2 9007199254740992) with 54. rewrite fexp_normal by lia.
    replace (54 + (e + n) - 53 - (e + n)) with 1 by lia.
    cbn [shr shr_record_of_loc SpecFloat.iter_pos shr_1 shr_m shr_r shr_s orb].
    assert (Hle : (e + n + 1 <=? 1024 - 53) = true) by (apply Z.leb_le; subst n; lia).
    rewrite Hle.
    exists 4503599627370496%positive, (n + 1).
    split; [f_equal; lia|]. split; [lia|]. split; [subst n; lia|].
    rewrite Z.pow_add_r, Z.pow_1_r by lia.
    assert (Hbm : shr_m b = 2 ^ 53 - 1) by lia.
    split.
    + intros K HK. 
      destruct (Z.lt_ge_cases K (2 ^ 52)) as [HbK|HbK]; [|lia].
      exfalso. assert (K * (2 ^ n * 2) < m) by nia.
      destruct l; lia.
    + intros K HK. nia.
Qed.

(** A 53-digit mantissa is already rounded. *)
Lemma binary_round_aux_exact (m : positive) (e : Z) :
  2 ^ 52 <= Zpos m < 2 ^ 53 -> -1074 <= e <= 971 ->
  binary_round_aux 53 1024 false (Zpos m) e loc_Exact = S754_finite false m e.
Proof.
  intros Hm He.
  assert (Hd : Zdigits2 (Zpos m) = 53) by (apply Zdigits2_unique; simpl; lia).
  unfold binary_round_aux, shr_fexp. rewrite Hd.
  rewrite fexp_normal by lia.
  replace (53 + e - 53 - e) with 0 by lia.
  cbn [shr shr_record_of_loc shr_m shr_r shr_s loc_of_shr_record round_nearest_even].
  rewrite Hd. rewrite fexp_normal by lia.
  replace (53 + e - 53 - e) with 0 by lia.
  cbn [shr shr_record_of_loc shr_m].
  assert (Hle : (e <=? 1024 - 53) = true) by (apply Z.leb_le; lia).
  now rewrite Hle.
Qed.

(** ** Conversion, quotient and product *)

Lemma iter_xO p d : Zpos (Pos.iter xO p d) = Zpos p * 2 ^ Zpos d.
Proof.
  induction d as [|d IH] using Pos.peano_ind.
  - simpl. lia.
  - rewrite Pos.iter_succ, Pos2Z.inj_xO, IH, Pos2Z.inj_succ, Z.pow_succ_r by lia. lia.
Qed.

(** [float(n)] for a positive integer below [2^53] is exact. *)
Lemma of_int_spec (n : Z) :
  0 < n < 2 ^ 53 ->
  exists (m : positive) (e : Z),
    of_int n = S754_finite false m e /\
    2 ^ 52 <= Zpos m < 2 ^ 53 /\ -52 <= e <= 0 /\
    Zpos m = n * 2 ^ (- e).
Proof.
  intros [Hn1 Hn2]. destruct n as [|p|p]; try lia.
  unfold of_int, binary_normalize, binary_round.
  destruct (digits2_pos_bounds p) as [Hd1 Hd2].
  set (d := Zpos (digits2_pos p)) in *.
  assert (Hd : 1 <= d <= 53).
  { split; [subst d; lia|].
    destruct (Z.le_gt_cases d 53) as [|Hgt]; [assumption|].
    assert (2 ^ 53 <= 2 ^ (d - 1)) by (apply Z.pow_le_mono_r; lia). lia. }
  assert (E1 : 2 ^ (d - 1) * 2 ^ (53 - d) = 2 ^ 52).
  { rewrite <- Z.pow_add_r by lia. f_equal. lia. }
  assert (E2 : 2 ^ d * 2 ^ (53 - d) = 2 ^ 53).
  { rewrite <- Z.pow_add_r by lia. f_equal. lia. }
  assert (P : 0 < 2 ^ (53 - d)) by (apply Z.pow_pos_nonneg; lia).
  assert (B : 2 ^ 52 <= Zpos p * 2 ^ (53 - d) < 2 ^ 53) by nia.
  rewrite Z.add_0_r. rewrite fexp_normal by lia.
  unfold shl_align. replace (d - 53 - 0) with (d - 53) by lia.
  destruct (d - 53) as [|q|q] eqn:Eq; try lia.
  - (* already 53 digits *)
    replace (53 - d) with 0 in B by lia. rewrite Z.pow_0_r, Z.mul_1_r in B.
    rewrite binary_round_aux_exact by lia.
    exists p, 0. repeat split; try lia.
  - assert (Hq : Zpos q = 53 - d) by lia.
    assert (Hm : Zpos (Pos.iter xO p q) = Zpos p * 2 ^ (53 - d))
      by (now rewrite iter_xO, Hq).
    rewrite binary_round_aux_exact by (rewrite ?Hm; lia).
    exists (Pos.iter xO p q), (Zneg q). repeat split; try lia.
    rewrite Hm. f_equal. f_equal. lia.
Qed.

Lemma new_location_exact nb k : new_location nb k = loc_Exact <-> k = 0.
Proof.
  unfold new_location, new_location_even, new_location_odd.
  destruct (Z.even nb); destruct (Z.eqb_spec k 0); split; intros; congruence.
Qed.

Lemma Zdigits2_range m lo hi :
  0 <= lo -> 2 ^ lo <= m < 2 ^ hi -> lo + 1 <= Zdigits2 m <= hi.
Proof.
  intros Hlo [H1 H2].
  assert (0 < m) by (assert (0 < 2 ^ lo) by (apply Z.pow_pos_nonneg; lia); lia).
  destruct (Zdigits2_bounds m H) as [H3 H4].
  assert (0 < Zdigits2 m) by (destruct m; simpl; lia).
  split.
  - assert (lo < Zdigits2 m) by (apply (Z.pow_lt_mono_r_iff 2); lia). lia.
  - assert (0 <= hi).
    { destruct (Z.le_gt_cases 0 hi); [assumption|].
      rewrite Z.pow_neg_r in H2 by lia. lia. }
    assert (Zdigits2 m - 1 < hi) by (apply (Z.pow_lt_mono_r_iff 2); lia). lia.
Qed.

(** The quotient of two positive normal numbers [m1 * 2^e1] and
    [m2 * 2^e2]: a normal number of exponent [e1 - e2 - 53 + k] that does
    not jump over a multiple of its unit. *)
Lemma SFdiv_spec (m1 m2 : positive) (e1 e2 : Z) :
  2 ^ 52 <= Zpos m1 < 2 ^ 53 -> 2 ^ 52 <= Zpos m2 < 2 ^ 53 ->
  -1000 <= e1 - e2 <= 1000 ->
  exists (m' : positive) (k : Z),
    SFdiv 53 1024 (S754_finite false m1 e1) (S754_finite false m2 e2)
      = S754_finite false m' (e1 - e2 - 53 + k) /\
    2 ^ 52 <= Zpos m' < 2 ^ 53 /\ 0 <= k <= 2 /\
    (forall K, Zpos m1 * 2 ^ 53 <= K * 2 ^ k * Zpos m2 -> Zpos m' <= K) /\
    (forall K, K * 2 ^ k * Zpos m2 <= Zpos m1 * 2 ^ 53 -> K <= Zpos m').
Proof.
  intros H1 H2 He.
  assert (P52 : 2 ^ 52 = 4503599627370496) by reflexivity.
  assert (P53 : 2 ^ 53 = 9007199254740992) by reflexivity.
  assert (P54 : 2 ^ 54 = 18014398509481984) by reflexivity.
  unfold SFdiv, SFdiv_core_binary. cbn [xorb].
  rewrite (Zdigits2_unique (Zpos m1) 53) by (simpl; lia).
  rewrite (Zdigits2_unique (Zpos m2) 53) by (simpl; lia).
  rewrite fexp_normal by lia.
  replace (53 + e1 - (53 + e2) - 53) with (e1 - e2 - 53) by lia.
  rewrite Z.min_l by lia.
  replace (e1 - e2 - (e1 - e2 - 53)) with 53 by lia.
  rewrite Z.shiftl_mul_pow2 by lia.
  pose proof (Z_div_mod (Zpos m1 * 2 ^ 53) (Zpos m2) ltac:(lia)) as Hdiv.
  destruct (Z.div_eucl (Zpos m1 * 2 ^ 53) (Zpos m2)) as [q r].
  destruct Hdiv as [Hq Hr].
  assert (Hq1 : 2 ^ 52 <= q < 2 ^ 54) by nia.
  pose proof (Zdigits2_range q 52 54 ltac:(lia) Hq1) as Hdq.
  destruct (binary_round_aux_spec q (e1 - e2 - 53) (new_location (Zpos m2) r))
    as (m' & k & -> & Hm' & Hk & G1 & G2); try lia.
  exists m', k. split; [reflexivity|]. split; [assumption|]. split; [lia|].
  assert (Pk : 0 < 2 ^ k) by (apply Z.pow_pos_nonneg; lia).
  split.
  - intros K HK. apply G1.
    destruct (new_location (Zpos m2) r) eqn:El.
    + apply new_location_exact in El. subst r. nia.
    + assert (r <> 0) by (intros ->; 
        assert (new_location (Zpos m2) 0 = loc_Exact) by (now apply new_location_exact);
        congruence). nia.
  - intros K HK. apply G2. nia.
Qed.

(** The product of two positive normal numbers, likewise. *)
Lemma SFmul_spec (m1 m2 : positive) (e1 e2 : Z) :
  2 ^ 52 <= Zpos m1 < 2 ^ 53 -> 2 ^ 52 <= Zpos m2 < 2 ^ 53 ->
  -1000 <= e1 + e2 <= 900 ->
  exists (m' : positive) (k : Z),
    SFmul 53 1024 (S754_finite false m1 e1) (S754_finite false m2 e2)
      = S754_finite false m' (e1 + e2 + k) /\
    2 ^ 52 <= Zpos m' < 2 ^ 53 /\ 52 <= k <= 54 /\
    (forall K, Zpos m1 * Zpos m2 <= K * 2 ^ k -> Zpos m' <= K) /\
    (forall K, K * 2 ^ k <= Zpos m1 * Zpos m2 -> K <= Zpos m').
Proof.
  intros H1 H2 He.
  assert (P52 : 2 ^ 52 = 4503599627370496) by reflexivity.
  assert (P53 : 2 ^ 53 = 9007199254740992) by reflexivity.
  assert (P104 : 2 ^ 104 = 4503599627370496 * 4503599627370496) by reflexivity.
  assert (P106 : 2 ^ 106 = 9007199254740992 * 9007199254740992) by reflexivity.
  unfold SFmul. cbn [xorb]. rewrite Pos2Z.inj_mul.
  assert (Hq1 : 2 ^ 104 <= Zpos m1 * Zpos m2 < 2 ^ 106) by nia.
  pose proof (Zdigits2_range _ 104 106 ltac:(lia) Hq1) as Hdq.
  destruct (binary_round_aux_spec (Zpos m1 * Zpos m2) (e1 + e2) loc_Exact)
    as (m' & k & -> & Hm' & Hk & G1 & G2); try lia.
  exists m', k. split; [reflexivity|]. split; [assumption|]. split; [lia|].
  split; assumption.
Qed.

(** [int(x)] for a positive number with a negative exponent. *)
Lemma to_int_negative_exponent (m : positive) (e : Z) :
  e < 0 -> to_int (S754_finite false m e) = Some (Zpos m / 2 ^ (- e)).
Proof.
  intros H. unfold to_int. destruct (Z.leb_spec 0 e); [lia | reflexivity].
Qed.

(** ** Comparison

    [<] on two positive finite numbers compares exponents, then mantissas. *)
Lemma SFltb_positive (m1 m2 : positive) (e1 e2 : Z) :
  if SFltb (S754_finite false m1 e1) (S754_finite false m2 e2)
  then e1 < e2 \/ (e2 = e1 /\ (m1 < m2)%positive)
  else e2 < e1 \/ (e2 = e1 /\ (m2 <= m1)%positive).
Proof.
  unfold SFltb, SFcompare.
  destruct (Z.compare_spec e1 e2) as [<- | Hlt | Hgt]; [| now left | now left].
  fold (Pos.compare m1 m2).
  destruct (Pos.compare_spec m1 m2) as [-> | H | H]; right; split;
    try reflexivity; try assumption;
    first [apply Pos.le_refl | now apply Pos.lt_le_incl].
Qed.

End Binary64Facts.

(* ===================================================================== *)
(** * The new size of the image *)
(* ===================================================================== *)

Section Resize.
Import Binary64 Client.

(** [img_ratio]: a normal number within one unit of its last place of
    [w / h]. *)
Lemma ratio_spec (w h : Z) :
  0 < w < 2 ^ 31 -> 0 < h < 2 ^ 31 ->
  exists (mr : positive) (er : Z),
    SFdiv 53 1024 (of_int w) (of_int h) = S754_finite false mr er /\
    is_zero (of_int h) = false /\
    2 ^ 52 <= Zpos mr < 2 ^ 53 /\ -84 <= er <= -21 /\
    (Zpos mr - 1) * h < w * 2 ^ (- er) < (Zpos mr + 1) * h.
Proof.
  intros Hw Hh.
  assert (P31 : 2 ^ 31 = 2147483648) by reflexivity.
  assert (P52 : 2 ^ 52 = 4503599627370496) by reflexivity.
  assert (P53 : 2 ^ 53 = 9007199254740992) by reflexivity.
  destruct (of_int_spec w) as (mw & ew & -> & Bw & Rw & Vw); [lia|].
  destruct (of_int_spec h) as (mh & eh & -> & Bh & Rh & Vh); [lia|].
  assert (Pw : 0 < 2 ^ (- ew)) by (apply Z.pow_pos_nonneg; lia).
  assert (Ph : 0 < 2 ^ (- eh)) by (apply Z.pow_pos_nonneg; lia).
  assert (Ew : 22 <= - ew).
  { destruct (Z.le_gt_cases 22 (- ew)); [assumption|].
    assert (2 ^ (- ew) <= 2 ^ 21) by (apply Z.pow_le_mono_r; lia).
    assert (2 ^ 21 = 2097152) by reflexivity. nia. }
  assert (Eh : 22 <= - eh).
  { destruct (Z.le_gt_cases 22 (- eh)); [assumption|].
    assert (2 ^ (- eh) <= 2 ^ 21) by (apply Z.pow_le_mono_r; lia).
    assert (2 ^ 21 = 2097152) by reflexivity. nia. }
  destruct (SFdiv_spec mw mh ew eh Bw Bh) as (mr & k & -> & Br & Hk & G1 & G2); [lia|].
  exists mr, (ew - eh - 53 + k).
  split; [reflexivity|]. split; [reflexivity|]. split; [assumption|]. split; [lia|].
  set (X := 2 ^ (- (ew - eh - 53 + k))).
  assert (Pk : 0 < 2 ^ k) by (apply Z.pow_pos_nonneg; lia).
  assert (PX : 0 < X) by (apply Z.pow_pos_nonneg; lia).
  assert (EX : 2 ^ 53 * 2 ^ (- ew) = X * (2 ^ k * 2 ^ (- eh))).
  { subst X. rewrite <- !Z.pow_add_r by lia. f_equal. lia. }
  split.
  - assert (H1 : ~ (Zpos mw * 2 ^ 53 <= (Zpos mr - 1) * 2 ^ k * Zpos mh))
      by (intros HK; apply G1 in HK; lia).
    rewrite Vw, Vh in H1.
    assert (H2 : (Zpos mr - 1) * h * (2 ^ k * 2 ^ (- eh)) < w * X * (2 ^ k * 2 ^ (- eh))) by nia.
    apply Z.mul_lt_mono_pos_r in H2; [assumption | nia].
  - assert (H1 : ~ ((Zpos mr + 1) * 2 ^ k * Zpos mh <= Zpos mw * 2 ^ 53))
      by (intros HK; apply G2 in HK; lia).
    rewrite Vw, Vh in H1.
    assert (H2 : w * X * (2 ^ k * 2 ^ (- eh)) < (Zpos mr + 1) * h * (2 ^ k * 2 ^ (- eh))) by nia.
    apply Z.mul_lt_mono_pos_r in H2; [assumption | nia].
Qed.

(** The three constants of the computation. *)
Lemma screen_ratio_value :
  SFdiv 53 1024 (of_int 320) (of_int 240) = S754_finite false mc (-52).
Proof. vm_compute. reflexivity. Qed.

Lemma of_int_240 : of_int 240 = S754_finite false 8444249301319680 (-45).
Proof. vm_compute. reflexivity. Qed.

Lemma of_int_320 : of_int 320 = S754_finite false 5629499534213120 (-44).
Proof. vm_compute. reflexivity. Qed.

(** The branch [new_height = target_height], taken when [img_ratio] is not
    above [screen_ratio]: then it is below 4/3. *)
Lemma fit_height (w h : Z) (mr : positive) (er : Z) :
  0 < w < 2 ^ 31 -> 0 < h < 2 ^ 31 ->
  2 ^ 52 <= Zpos mr < 2 ^ 53 -> -84 <= er <= -21 ->
  (Zpos mr - 1) * h < w * 2 ^ (- er) < (Zpos mr + 1) * h ->
  er < -52 \/ (er = -52 /\ Zpos mr <= Zpos mc) ->
  exists n,
    to_int (SFmul 53 1024 (of_int 240) (S754_finite false mr er)) = Some n /\
    0 <= n <= 320 /\ n * h <= 240 * w <= (n + 1) * h /\ 3 * w <= 4 * h.
Proof.
  intros Hw Hh Br Er [Ha1 Ha2] Hc.
  assert (P31 : 2 ^ 31 = 2147483648) by reflexivity.
  assert (P52 : 2 ^ 52 = 4503599627370496) by reflexivity.
  assert (P53 : 2 ^ 53 = 9007199254740992) by reflexivity.
  rewrite of_int_240.
  destruct (SFmul_spec 8444249301319680 mr (-45) er) as (mp & k & -> & Bp & Hk & G1 & G2);
    try lia.
  set (ep := -45 + er + k).
  rewrite to_int_negative_exponent by (subst ep; lia).
  set (X := 2 ^ (- er)) in *. set (Y := 2 ^ (- ep)). set (T := 2 ^ k) in *.
  assert (PX : 0 < X) by (apply Z.pow_pos_nonneg; lia).
  assert (PY : 0 < Y) by (apply Z.pow_pos_nonneg; subst ep; lia).
  assert (PT : 0 < T) by (apply Z.pow_pos_nonneg; lia).
  assert (ET : T * Y = 2 ^ 45 * X).
  { subst T Y X ep. rewrite <- !Z.pow_add_r by lia. f_equal. lia. }
  assert (P45 : 2 ^ 45 = 35184372088832) by reflexivity.
  (* the ratio is below 4/3 *)
  assert (HX : 3 * Zpos mr < 4 * X).
  { destruct Hc as [Hlt | [-> Hle]].
    - assert (2 ^ 53 <= X) by (apply Z.pow_le_mono_r; lia). lia.
    - subst X. change (2 ^ (- -52)) with 4503599627370496. unfold mc in Hle. lia. }
  (* the product, within one unit of its last place *)
  assert (Hb1 : (Zpos mp - 1) * X < 240 * Zpos mr * Y).
  { assert (H1 : (Zpos mp - 1) * T < 8444249301319680 * Zpos mr).
    { apply Z.nle_gt. intros HK. apply G1 in HK. lia. }
    assert (H2 : (Zpos mp - 1) * T * Y < 8444249301319680 * Zpos mr * Y)
      by (apply Z.mul_lt_mono_pos_r; assumption).
    replace ((Zpos mp - 1) * T * Y) with ((Zpos mp - 1) * (T * Y)) in H2 by ring.
    rewrite ET, P45 in H2. lia. }
  assert (Hb2 : 240 * Zpos mr * Y < (Zpos mp + 1) * X).
  { assert (H1 : 8444249301319680 * Zpos mr < (Zpos mp + 1) * T).
    { apply Z.nle_gt. intros HK. apply G2 in HK. lia. }
    assert (H2 : 8444249301319680 * Zpos mr * Y < (Zpos mp + 1) * T * Y)
      by (apply Z.mul_lt_mono_pos_r; assumption).
    replace ((Zpos mp + 1) * T * Y) with ((Zpos mp + 1) * (T * Y)) in H2 by ring.
    rewrite ET, P45 in H2. lia. }
  (* and not above 320 *)
  assert (Hb3 : Zpos mp <= 320 * Y).
  { apply G1. fold T. replace (320 * Y * T) with (320 * (T * Y)) by ring.
    rewrite ET, P45. lia. }
  pose proof (Z.div_mod (Zpos mp) Y ltac:(lia)) as Hdm.
  pose proof (Z.mod_pos_bound (Zpos mp) Y PY) as Hmod.
  set (n := Zpos mp / Y) in *.
  exists n. split; [reflexivity|].
  assert (Hn0 : 0 <= n) by (apply Z.div_pos; lia).
  assert (Hn1 : n <= 320).
  { destruct (Z.le_gt_cases n 320) as [|Hgt]; [assumption|exfalso].
    assert (321 * Y <= Y * n) by (clear - Hgt PY; nia). lia. }
  split; [lia|].
  assert (HnY1 : n * Y <= Zpos mp) by lia.
  assert (HnY2 : Zpos mp < (n + 1) * Y) by lia.
  assert (P43 : 2 ^ 43 = 8796093022208) by reflexivity.
  assert (HY : 2 ^ 43 < Y) by lia.
  assert (HX2 : 2 ^ 51 < X) by lia.
  assert (P39 : 2 ^ 39 = 549755813888) by reflexivity.
  assert (S5 : X * h + 240 * h * Y < X * Y).
  { assert (A1 : X * h < X * 2 ^ 31) by (apply Z.mul_lt_mono_pos_l; lia).
    assert (A2 : h * Y < 2 ^ 31 * Y) by (apply Z.mul_lt_mono_pos_r; lia).
    assert (A3 : X * 2 ^ 32 <= X * Y) by (apply Z.mul_le_mono_nonneg_l; lia).
    assert (A4 : 2 ^ 40 * Y <= X * Y) by (apply Z.mul_le_mono_nonneg_r; lia).
    assert (P32 : 2 ^ 32 = 4294967296) by reflexivity.
    assert (P40 : 2 ^ 40 = 1099511627776) by reflexivity.
    lia. }
  clear Hdm Hmod G1 G2 ET HY HX2 Hb3.
  split; [split|].
  - (* n * h <= 240 * w *)
    destruct (Z.le_gt_cases (n * h) (240 * w)) as [|Hgt]; [assumption|exfalso].
    assert (S1 : (240 * w + 1) * Y <= Zpos mp * h).
    { assert (240 * w + 1 <= n * h) by lia.
      assert ((240 * w + 1) * Y <= n * h * Y)
        by (apply Z.mul_le_mono_nonneg_r; lia).
      assert (n * Y * h <= Zpos mp * h) by (apply Z.mul_le_mono_nonneg_r; lia).
      lia. }
    assert (S2 : (Zpos mp - 1) * X * h < 240 * Zpos mr * Y * h)
      by (apply Z.mul_lt_mono_pos_r; lia).
    assert (S3 : Zpos mr * h * (240 * Y) < (w * X + h) * (240 * Y))
      by (apply Z.mul_lt_mono_pos_r; lia).
    assert (S4 : (240 * w + 1) * Y * X <= Zpos mp * h * X)
      by (apply Z.mul_le_mono_nonneg_r; lia).
    lia.
  - (* 240 * w <= (n + 1) * h *)
    destruct (Z.le_gt_cases (240 * w) ((n + 1) * h)) as [|Hgt]; [assumption|exfalso].
    assert (S1 : Zpos mp * h < (240 * w - 1) * Y).
    { assert ((n + 1) * h <= 240 * w - 1) by lia.
      assert ((n + 1) * h * Y <= (240 * w - 1) * Y)
        by (apply Z.mul_le_mono_nonneg_r; lia).
      assert (Zpos mp * h < (n + 1) * Y * h) by (apply Z.mul_lt_mono_pos_r; lia).
      lia. }
    assert (S2 : 240 * Zpos mr * Y * h < (Zpos mp + 1) * X * h)
      by (apply Z.mul_lt_mono_pos_r; lia).
    assert (S3 : (w * X - h) * (240 * Y) < Zpos mr * h * (240 * Y))
      by (apply Z.mul_lt_mono_pos_r; lia).
    assert (S4 : Zpos mp * h * X < (240 * w - 1) * Y * X)
      by (apply Z.mul_lt_mono_pos_r; lia).
    lia.
  - (* the image is not wider than 4:3 *)
    destruct (Z.le_gt_cases (3 * w) (4 * h)) as [|Hgt]; [assumption|exfalso].
    assert (S1 : (4 * h + 1) * X <= 3 * w * X)
      by (apply Z.mul_le_mono_nonneg_r; lia).
    assert (S3 : 3 * Zpos mr * h < 4 * X * h)
      by (apply Z.mul_lt_mono_pos_r; lia).
    assert (S6 : h * 3 < X) by lia.
    lia.
Qed.

(** The branch [new_width = target_width], taken when [img_ratio] is above
    [screen_ratio]: then it is above 4/3. *)
Lemma fit_width (w h : Z) (mr : positive) (er : Z) :
  0 < w < 2 ^ 31 -> 0 < h < 2 ^ 31 ->
  2 ^ 52 <= Zpos mr < 2 ^ 53 -> -84 <= er <= -21 ->
  (Zpos mr - 1) * h < w * 2 ^ (- er) < (Zpos mr + 1) * h ->
  -52 < er \/ (er = -52 /\ Zpos mc < Zpos mr) ->
  exists x n,
    truediv (of_int 320) (S754_finite false mr er) = Some x /\
    to_int x = Some n /\
    0 <= n <= 240 /\ n * w <= 320 * h <= (n + 1) * w /\ 4 * h <= 3 * w.
Proof.
  intros Hw Hh Br Er [Ha1 Ha2] Hc.
  assert (P31 : 2 ^ 31 = 2147483648) by reflexivity.
  assert (P52 : 2 ^ 52 = 4503599627370496) by reflexivity.
  assert (P53 : 2 ^ 53 = 9007199254740992) by reflexivity.
  assert (P51 : 2 ^ 51 = 2251799813685248) by reflexivity.
  rewrite of_int_320. unfold truediv. cbn [is_zero].
  destruct (SFdiv_spec 5629499534213120 mr (-44) er) as (mq & k & -> & Bq & Hk & G1 & G2);
    try lia.
  set (eq := -44 - er - 53 + k).
  assert (Heq : eq <= -43) by (subst eq; destruct Hc; lia).
  eexists. exists (Zpos mq / 2 ^ (- eq)).
  split; [reflexivity|].
  split; [apply to_int_negative_exponent; lia|].
  set (X := 2 ^ (- er)) in *. set (Y := 2 ^ (- eq)). set (T := 2 ^ k) in *.
  assert (PX : 0 < X) by (apply Z.pow_pos_nonneg; lia).
  assert (PY : 0 < Y) by (apply Z.pow_pos_nonneg; lia).
  assert (PT : 0 < T) by (apply Z.pow_pos_nonneg; lia).
  assert (ET : T * Y * X = 2 ^ 97).
  { subst T Y X eq. rewrite <- !Z.pow_add_r by lia. f_equal. lia. }
  assert (P97 : 2 ^ 97 = 158456325028528675187087900672) by reflexivity.
  (* the ratio is above 4/3 *)
  assert (HX : 4 * X < 3 * Zpos mr).
  { destruct Hc as [Hgt | [-> Hlt]].
    - assert (X <= 2 ^ 51) by (apply Z.pow_le_mono_r; lia). lia.
    - subst X. change (2 ^ (- -52)) with 4503599627370496. unfold mc in Hlt. lia. }
  (* the quotient, within one unit of its last place *)
  assert (Hb1 : (Zpos mq - 1) * Zpos mr < 320 * X * Y).
  { assert (H1 : (Zpos mq - 1) * T * Zpos mr < 5629499534213120 * 2 ^ 53).
    { apply Z.nle_gt. intros HK. apply G1 in HK. lia. }
    assert (H2 : (Zpos mq - 1) * T * Zpos mr * (Y * X)
                 < 5629499534213120 * 2 ^ 53 * (Y * X))
      by (apply Z.mul_lt_mono_pos_r; [apply Z.mul_pos_pos|]; assumption).
    replace ((Zpos mq - 1) * T * Zpos mr * (Y * X))
      with ((Zpos mq - 1) * Zpos mr * (T * Y * X)) in H2 by ring.
    rewrite ET, P97, P53 in H2. lia. }
  assert (Hb2 : 320 * X * Y < (Zpos mq + 1) * Zpos mr).
  { assert (H1 : 5629499534213120 * 2 ^ 53 < (Zpos mq + 1) * T * Zpos mr).
    { apply Z.nle_gt. intros HK. apply G2 in HK. lia. }
    assert (H2 : 5629499534213120 * 2 ^ 53 * (Y * X)
                 < (Zpos mq + 1) * T * Zpos mr * (Y * X))
      by (apply Z.mul_lt_mono_pos_r; [apply Z.mul_pos_pos|]; assumption).
    replace ((Zpos mq + 1) * T * Zpos mr * (Y * X))
      with ((Zpos mq + 1) * Zpos mr * (T * Y * X)) in H2 by ring.
    rewrite ET, P97, P53 in H2. lia. }
  (* and not above 240 *)
  assert (Hb3 : Zpos mq <= 240 * Y).
  { apply G1. fold T.
    apply (Z.mul_le_mono_pos_r _ _ X PX).
    replace (240 * Y * T * Zpos mr * X) with (240 * Zpos mr * (T * Y * X)) by ring.
    rewrite ET, P97, P53. lia. }
  pose proof (Z.div_mod (Zpos mq) Y ltac:(lia)) as Hdm.
  pose proof (Z.mod_pos_bound (Zpos mq) Y PY) as Hmod.
  set (n := Zpos mq / Y) in *.
  assert (Hn0 : 0 <= n) by (apply Z.div_pos; lia).
  assert (Hn1 : n <= 240).
  { destruct (Z.le_gt_cases n 240) as [|Hgt]; [assumption|exfalso].
    assert (241 * Y <= Y * n) by (clear - Hgt PY; nia). lia. }
  split; [lia|].
  assert (HnY1 : n * Y <= Zpos mq) by lia.
  assert (HnY2 : Zpos mq < (n + 1) * Y) by lia.
  assert (P43 : 2 ^ 43 = 8796093022208) by reflexivity.
  assert (HY : 2 ^ 43 < Y) by lia.
  assert (S5 : Zpos mr * w + 320 * Y * h < Y * Zpos mr).
  { assert (A1 : Zpos mr * w < Zpos mr * 2 ^ 31) by (apply Z.mul_lt_mono_pos_l; lia).
    assert (A2 : Y * h < Y * 2 ^ 31) by (apply Z.mul_lt_mono_pos_l; lia).
    assert (A3 : 2 ^ 32 * Zpos mr <= Y * Zpos mr) by (apply Z.mul_le_mono_nonneg_r; lia).
    assert (A4 : Y * 2 ^ 41 <= Y * Zpos mr) by (apply Z.mul_le_mono_nonneg_l; lia).
    assert (P32 : 2 ^ 32 = 4294967296) by reflexivity.
    assert (P41 : 2 ^ 41 = 2199023255552) by reflexivity.
    lia. }
  clear Hdm Hmod G1 G2 ET HY Hb3.
  split; [split|].
  - (* n * w <= 320 * h *)
    destruct (Z.le_gt_cases (n * w) (320 * h)) as [|Hgt]; [assumption|exfalso].
    assert (S1 : (320 * h + 1) * Y <= Zpos mq * w).
    { assert ((320 * h + 1) * Y <= n * w * Y)
        by (apply Z.mul_le_mono_nonneg_r; lia).
      assert (n * Y * w <= Zpos mq * w) by (apply Z.mul_le_mono_nonneg_r; lia).
      lia. }
    assert (S2 : (Zpos mq - 1) * Zpos mr * w < 320 * X * Y * w)
      by (apply Z.mul_lt_mono_pos_r; lia).
    assert (S3 : w * X * (320 * Y) < (Zpos mr + 1) * h * (320 * Y))
      by (apply Z.mul_lt_mono_pos_r; lia).
    assert (S4 : (320 * h + 1) * Y * Zpos mr <= Zpos mq * w * Zpos mr)
      by (apply Z.mul_le_mono_nonneg_r; lia).
    lia.
  - (* 320 * h <= (n + 1) * w *)
    destruct (Z.le_gt_cases (320 * h) ((n + 1) * w)) as [|Hgt]; [assumption|exfalso].
    assert (S1 : Zpos mq * w < (320 * h - 1) * Y).
    { assert ((n + 1) * w * Y <= (320 * h - 1) * Y)
        by (apply Z.mul_le_mono_nonneg_r; lia).
      assert (Zpos mq * w < (n + 1) * Y * w) by (apply Z.mul_lt_mono_pos_r; lia).
      lia. }
    assert (S2 : 320 * X * Y * w < (Zpos mq + 1) * Zpos mr * w)
      by (apply Z.mul_lt_mono_pos_r; lia).
    assert (S3 : (Zpos mr - 1) * h * (320 * Y) < w * X * (320 * Y))
      by (apply Z.mul_lt_mono_pos_r; lia).
    assert (S4 : Zpos mq * w * Zpos mr < (320 * h - 1) * Y * Zpos mr)
      by (apply Z.mul_lt_mono_pos_r; lia).
    lia.
  - (* the image is not narrower than 4:3 *)
    destruct (Z.le_gt_cases (4 * h) (3 * w)) as [|Hgt]; [assumption|exfalso].
    destruct Hc as [Hgt' | [-> Hlt]].
    + assert (HX1 : X <= 2 ^ 51) by (apply Z.pow_le_mono_r; lia).
      assert (S1 : w * X <= w * 2 ^ 51) by (apply Z.mul_le_mono_nonneg_l; lia).
      assert (S2 : (2 ^ 52 - 1) * h <= (Zpos mr - 1) * h)
        by (apply Z.mul_le_mono_nonneg_r; lia).
      lia.
    + subst X. change (2 ^ (- -52)) with 4503599627370496 in *.
      unfold mc in Hlt.
      assert (S2 : 6004799503160661 * h <= (Zpos mr - 1) * h)
        by (apply Z.mul_le_mono_nonneg_r; lia).
      lia.
Qed.

(** What the test [img_ratio > screen_ratio] says about [img_ratio]. *)
Lemma SFltb_screen_ratio (mr : positive) (er : Z) :
  if SFltb (S754_finite false mc (-52)) (S754_finite false mr er)
  then -52 < er \/ (er = -52 /\ Zpos mc < Zpos mr)
  else er < -52 \/ (er = -52 /\ Zpos mr <= Zpos mc).
Proof.
  pose proof (SFltb_positive mc mr (-52) er) as H.
  destruct (SFltb (S754_finite false mc (-52)) (S754_finite false mr er));
    destruct H as [H | [H1 H2]]; [now left | right | now left | right];
    (split; [assumption|]).
  - now apply Pos2Z.pos_lt_pos.
  - now apply Pos2Z.pos_le_pos.
Qed.

(** C10, the claim as written fails: an image of 123 by 240 pixels is as
    high as the canvas, and its proportional width [240 * 123 / 240] is 123
    with nothing to truncate, yet the width computed is 122.  The quotient
    [123 / 240] is the float [0x1.0666666666666p-1], just below 0.5125, and
    its product with 240 is [0x1.ebfffffffffffp+6], printed by Python as
    [122.99999999999999]: the float next below 123. *)
Lemma aspect_ratio_loses_a_pixel :
  SFdiv 53 1024 (of_int 123) (of_int 240)
    = S754_finite false 4616189618054758 (-53) /\
  SFmul 53 1024 (of_int 240) (S754_finite false 4616189618054758 (-53))
    = S754_finite false 8655355533852671 (-46) /\
  of_int 123 = S754_finite false 8655355533852672 (-46) /\
  resize_dimensions 123 240 = Some (122, 240) /\
  240 * 123 / 240 = 123 /\ (240 * 123) mod 240 = 0.
Proof. vm_compute. repeat split. Qed.

(** C10 (as the code has it). For positive dimensions below [2^31] the
    new size is defined, its width is at most 320 and its height at most
    240, and one of the two equals its target: the width is 320 when the
    image is wider than 4:3, the height is 240 when it is narrower, and one
    of the two holds at exactly 4:3.  The other edge [n] is the
    proportional size cut to an integer, or one less:
    [n <= t * a / b <= n + 1] for the target [t] and the image's edges [a],
    [b]; so it is the truncated proportional size whenever that size is not
    a whole number.  In particular an image smaller than 320 by 240 comes
    out larger in at least one direction. *)
Theorem resize_dimensions_spec (w h : Z) :
  0 < w < 2 ^ 31 -> 0 < h < 2 ^ 31 ->
  exists nw nh,
    resize_dimensions w h = Some (nw, nh) /\
    0 <= nw <= 320 /\ 0 <= nh <= 240 /\
    ((nw = 320 /\ 4 * h <= 3 * w /\ nh * w <= 320 * h <= (nh + 1) * w) \/
     (nh = 240 /\ 3 * w <= 4 * h /\ nw * h <= 240 * w <= (nw + 1) * h)) /\
    (w < 320 -> h < 240 -> w < nw \/ h < nh).
Proof.
  intros Hw Hh.
  destruct (ratio_spec w h Hw Hh) as (mr & er & Er & Hz & Br & Ber & Ha).
  unfold resize_dimensions. unfold truediv at 1. rewrite Hz, Er.
  unfold truediv at 1.
  replace (is_zero (of_int 240)) with false by (now rewrite of_int_240).
  rewrite screen_ratio_value.
  pose proof (SFltb_screen_ratio mr er) as Hc.
  destruct (SFltb (S754_finite false mc (-52)) (S754_finite false mr er)).
  - destruct (fit_width w h mr er Hw Hh Br Ber Ha Hc) as (x & n & -> & -> & Hn & Hr & H43).
    exists 320, n. split; [reflexivity|]. repeat split; lia.
  - destruct (fit_height w h mr er Hw Hh Br Ber Ha Hc) as (n & -> & Hn & Hr & H43).
    exists n, 240. split; [reflexivity|]. repeat split; lia.
Qed.

(** A 4000 by 3000 image: the hypotheses of [resize_dimensions_spec] hold,
    and the new size fits the canvas. *)
Lemma resize_dimensions_spec_witness :
  0 < 4000 < 2 ^ 31 /\ 0 < 3000 < 2 ^ 31 /\
  exists nw nh,
    resize_dimensions 4000 3000 = Some (nw, nh) /\ nw <= 320 /\ nh <= 240.
Proof.
  assert (Hw : 0 < 4000 < 2 ^ 31) by (split; reflexivity).
  assert (Hh : 0 < 3000 < 2 ^ 31) by (split; reflexivity).
  split; [exact Hw |]. split; [exact Hh |].
  destruct (resize_dimensions_spec 4000 3000 Hw Hh)
    as (nw & nh & E & [_ Bw] & [_ Bh] & _).
  exists nw, nh. split; [exact E |]. split; [exact Bw | exact Bh].
Defined.

End Resize.

(* ===================================================================== *)
(** * Properties of the media player *)
(* ===================================================================== *)

Section MediaPlayerFacts.
Import Ucapi MediaPlayer.

Lemma published_update_remote_state p :
  published (_update_remote_state p) = publication p ++ published p.
Proof.
  destruct p as [[[[] ups]|] cl attr cs cc str st liu ts]; reflexivity.
Qed.

Lemma subscribed_update_remote_state p :
  subscribed (_update_remote_state p) = subscribed p.
Proof.
  destruct p as [[[[] ups]|] cl attr cs cc str st liu ts]; reflexivity.
Qed.

(** Publishing touches nothing but the API's record of updates. *)
Lemma update_remote_state_frame p :
  exists a, _update_remote_state p = with_api a p /\
            published (with_api a p) = publication p ++ published p /\
            subscribed (with_api a p) = subscribed p.
Proof.
  exists (_api (_update_remote_state p)).
  destruct p as [[[[] ups]|] cl attr cs cc str st liu ts]; repeat split; reflexivity.
Qed.

Lemma cancel_and_await_length i ts : length (cancel_and_await i ts) = length ts.
Proof.
  unfold cancel_and_await. destruct (ts !! i); [apply length_insert | reflexivity].
Qed.

Lemma cancel_and_await_lookup_eq i ts t :
  ts !! i = Some t ->
  cancel_and_await i ts !! i =
    Some {| alive := false; consecutive_failures := consecutive_failures t |}.
Proof.
  intros H. unfold cancel_and_await. rewrite H.
  apply list_lookup_insert_eq. now apply lookup_lt_Some in H.
Qed.

Lemma cancel_and_await_lookup_ne i j ts :
  i <> j -> cancel_and_await i ts !! j = ts !! j.
Proof.
  intros H. unfold cancel_and_await.
  destruct (ts !! i); [now apply list_lookup_insert_ne | reflexivity].
Qed.

Lemma finished_after_cancel i ts t more p :
  ts !! i = Some t ->
  tasks p = cancel_and_await i ts ++ more ->
  finished i p.
Proof.
  intros Ht Hp. unfold finished. rewrite Hp.
  exists {| alive := false; consecutive_failures := consecutive_failures t |}.
  split; [|reflexivity].
  rewrite lookup_app_l
    by (rewrite cancel_and_await_length; now apply lookup_lt_Some in Ht).
  now apply cancel_and_await_lookup_eq.
Qed.

(** What [_select_source] does with a non-empty configured name. *)
Lemma select_source_valid (p : player) (source_name : string) c :
  source_name <> "" -> clients p !! source_name = Some c ->
  let p' := snd (_select_source (Some source_name) p) in
  fst (_select_source (Some source_name) p) = OK /\
  (is_streaming p = true ->
     forall i t, stream_task p = Some i -> tasks p !! i = Some t ->
                 finished i p') /\
  current_source p' = source_name /\
  current_client p' = Some c /\
  attributes p' =
    set_MEDIA_TITLE source_name (set_SOURCE source_name (attributes p)) /\
  published p' =
    (if subscribed p then [attrs_to_update (attributes p')] else [])
    ++ published p /\
  is_streaming p' = is_on p /\
  (if is_on p
   then stream_task p' = Some (length (tasks p)) /\
        tasks p' !! length (tasks p) = Some fresh_task /\
        length (tasks p') = S (length (tasks p))
   else length (tasks p') = length (tasks p) /\
        stream_task p' = (if is_streaming p then None else stream_task p)).
Proof.
  intros Hne Hc. unfold _select_source.
  rewrite bool_decide_eq_false_2 by assumption. rewrite Hc.
  match goal with
  | |- context [_update_remote_state ?q] =>
      destruct (update_remote_state_frame q) as (a & Ea & Epub & Esub)
  end.
  rewrite Ea. clear Ea.
  destruct p as [api cl [S sl so img ti ar] cs cc str st liu ts]. simpl in *.
  unfold is_on, stop_image_streaming, start_image_streaming in *.
  destruct str, st as [i|], S; cbn in *;
    repeat split; try reflexivity; try discriminate; try assumption;
    try (intros _ i' t [= ->] Ht;
         first [ now apply (finished_after_cancel i' ts t [fresh_task])
               | apply (finished_after_cancel i' ts t []);
                 [assumption | now rewrite app_nil_r] ]);
    try (rewrite ?length_app, ?cancel_and_await_length; simpl; lia);
    try (now rewrite cancel_and_await_length);
    try (apply list_lookup_middle; now rewrite ?cancel_and_await_length).
Qed.

(** What [_turn_on] does when a camera is selected and nothing is streaming. *)
Lemma turn_on_starts (p : player) c :
  current_client p = Some c -> is_streaming p = false ->
  let p' := snd (_turn_on p) in
  fst (_turn_on p) = OK /\
  STATE (attributes p') = PLAYING /\
  is_streaming p' = true /\
  stream_task p' = Some (length (tasks p)) /\
  tasks p' !! length (tasks p) = Some fresh_task /\
  current_client p' = Some c.
Proof.
  intros Hc Hs. unfold _turn_on. rewrite Hc.
  match goal with
  | |- context [_update_remote_state ?q] =>
      destruct (update_remote_state_frame q) as (a & Ea & _)
  end.
  rewrite Ea. clear Ea.
  destruct p as [api cl attr cs cc str st liu ts]. simpl in *. subst.
  unfold start_image_streaming. cbn.
  repeat split. now apply list_lookup_middle.
Qed.

(** C7. [SelectSource] with a name that is not a configured camera returns
    [BAD_REQUEST] and changes nothing.  With a non-empty configured name it
    returns [OK]; a stream that was running is stopped first (its task has
    finished); the client, [current_source], [SOURCE] and the title are
    those of the new camera and the state is published; and a polling task
    for the new camera is started exactly when the entity is on: then a
    fresh task is the stream task, otherwise no task is created and
    [is_streaming] is false. *)
Theorem select_source_spec (p : player) (source_name : string) :
  (clients p !! source_name = None ->
     _select_source (Some source_name) p = (BAD_REQUEST, p)) /\
  (forall c, source_name <> "" -> clients p !! source_name = Some c ->
     let p' := snd (_select_source (Some source_name) p) in
     fst (_select_source (Some source_name) p) = OK /\
     (is_streaming p = true ->
        forall i t, stream_task p = Some i -> tasks p !! i = Some t ->
                    finished i p') /\
     current_source p' = source_name /\
     current_client p' = Some c /\
     attributes p' =
       set_MEDIA_TITLE source_name (set_SOURCE source_name (attributes p)) /\
     published p' =
       (if subscribed p then [attrs_to_update (attributes p')] else [])
       ++ published p /\
     is_streaming p' = is_on p /\
     (if is_on p
      then stream_task p' = Some (length (tasks p)) /\
           tasks p' !! length (tasks p) = Some fresh_task /\
           length (tasks p') = S (length (tasks p))
      else length (tasks p') = length (tasks p) /\
           stream_task p' = (if is_streaming p then None else stream_task p))).
Proof.
  split.
  - intros H. unfold _select_source. rewrite H. now destruct (bool_decide _).
  - intros c. apply select_source_valid.
Qed.

(** C3, the claim as written fails: after five timeouts the entity is
    unavailable, and selecting the configured camera "B" returns [OK] but
    leaves the state [UNAVAILABLE], starts no task and does not stream. *)
Lemma reselect_stays_unavailable :
  let p := after_timeouts 5 in
  STATE (attributes p) = UNAVAILABLE /\
  clients p !! "B" = Some {| config := camB |} /\
  let p' := snd (_select_source (Some "B") p) in
  fst (_select_source (Some "B") p) = OK /\
  STATE (attributes p') = UNAVAILABLE /\
  is_streaming p' = false /\
  alive_tasks p' = 0%nat.
Proof. vm_compute. repeat split. Qed.

(** C3 (as the code has it). In a state whose health is [UNAVAILABLE],
    [SelectSource] with a non-empty configured name records the selection
    (client, source and title) but leaves the state [UNAVAILABLE] and the
    artist line as they were, creates no task and does not stream.  Polling
    of the selected camera resumes with the next power-on, which sets the
    state to [PLAYING] and starts a fresh task. *)
Theorem select_source_when_unavailable (p : player) (source_name : string) c :
  STATE (attributes p) = UNAVAILABLE ->
  source_name <> "" -> clients p !! source_name = Some c ->
  let p' := snd (_select_source (Some source_name) p) in
  fst (_select_source (Some source_name) p) = OK /\
  current_source p' = source_name /\
  current_client p' = Some c /\
  SOURCE (attributes p') = source_name /\
  MEDIA_TITLE (attributes p') = source_name /\
  STATE (attributes p') = UNAVAILABLE /\
  MEDIA_ARTIST (attributes p') = MEDIA_ARTIST (attributes p) /\
  published p' =
    (if subscribed p then [attrs_to_update (attributes p')] else [])
    ++ published p /\
  is_streaming p' = false /\
  length (tasks p') = length (tasks p) /\
  let p'' := snd (_turn_on p') in
  fst (_turn_on p') = OK /\
  STATE (attributes p'') = PLAYING /\
  is_streaming p'' = true /\
  stream_task p'' = Some (length (tasks p)) /\
  tasks p'' !! length (tasks p) = Some fresh_task.
Proof.
  intros Hun Hne Hc.
  destruct (select_source_valid p source_name c Hne Hc)
    as (Hok & _ & Hsrc & Hcl & Hat & Hpub & Hstr & Hon).
  assert (Hoff : is_on p = false) by (unfold is_on; now rewrite Hun).
  rewrite Hoff in Hstr, Hon. destruct Hon as [Hlen _].
  cbv zeta. rewrite Hpub. rewrite Hat. simpl. rewrite Hun.
  repeat (split; [assumption || reflexivity |]).
  destruct (turn_on_starts _ c Hcl Hstr) as (H1 & H2 & H3 & H4 & H5 & _).
  rewrite Hlen in H4, H5. repeat split; assumption.
Qed.

(** The hypotheses of [select_source_when_unavailable] hold after five
    timeouts, for camera "B". *)
Lemma select_source_when_unavailable_witness :
  let p := after_timeouts 5 in
  let p' := snd (_select_source (Some "B") p) in
  STATE (attributes p') = UNAVAILABLE /\ is_streaming p' = false /\
  STATE (attributes (snd (_turn_on p'))) = PLAYING.
Proof.
  pose proof (select_source_when_unavailable (after_timeouts 5) "B"
                {| config := camB |}) as H.
  cbv zeta in *.
  destruct H as (_ & _ & _ & _ & _ & H1 & _ & _ & H2 & _ & _ & H3 & _).
  - vm_compute; reflexivity.
  - discriminate.
  - vm_compute; reflexivity.
  - repeat split; assumption.
Defined.

(** ** The polling loop *)

Lemma failures_lookup i p t :
  tasks p !! i = Some t -> failures i p = consecutive_failures t.
Proof. intros H. unfold failures. now rewrite H. Qed.

Lemma set_failures_tasks i n p t :
  tasks p !! i = Some t ->
  set_failures i n p =
    with_tasks (<[i := {| alive := alive t; consecutive_failures := n |}]> (tasks p)) p.
Proof. intros H. unfold set_failures. now rewrite H. Qed.

Lemma finish_tasks i p t :
  tasks p !! i = Some t ->
  finish i p =
    with_tasks (<[i := {| alive := false;
                          consecutive_failures := consecutive_failures t |}]> (tasks p)) p.
Proof. intros H. unfold finish, cancel_and_await. now rewrite H. Qed.

Lemma cancel_and_await_idem i ts :
  cancel_and_await i (cancel_and_await i ts) = cancel_and_await i ts.
Proof.
  destruct (ts !! i) as [t|] eqn:E.
  - unfold cancel_and_await. rewrite E.
    rewrite list_lookup_insert_eq by (now apply lookup_lt_Some in E). simpl.
    now rewrite list_insert_insert_eq.
  - unfold cancel_and_await. now rewrite !E.
Qed.

Lemma finish_finish i p : finish i (finish i p) = finish i p.
Proof.
  unfold finish. simpl. now rewrite cancel_and_await_idem.
Qed.

(** One iteration of a task that is polling, by how its fetch ended. *)
Lemma iter_polling env i p :
  polling i p ->
  _image_stream_loop_iter env i p =
    match tick_verdict env with
    | Interrupted => finish i p
    | Failed => after_body env i (bump i p)
    | Succeeded s =>
        after_body env i
          (set_failures i 0
             (_update_remote_state
                (with_last_image_update (now env)
                   (with_attributes
                      (set_MEDIA_IMAGE_URL ("data:image/jpeg;base64," +:+ s)
                         (attributes p)) p))))
    end.
Proof.
  intros ((t & Ht & Ha) & Hs & Hc & Hon).
  unfold _image_stream_loop_iter, tick_verdict.
  rewrite Ht, Ha, Hs, Hon. rewrite bool_decide_eq_true_2 by assumption. simpl.
  destruct (snapshot env) as [x| |]; try reflexivity.
  destruct (Client.get_snapshot x) as [[|b d]|]; try reflexivity.
  destruct (optimized env) as [o| |]; try reflexivity.
  destruct (truthy o); reflexivity.
Qed.

Lemma tasks_update_remote_state p : tasks (_update_remote_state p) = tasks p.
Proof. destruct (update_remote_state_frame p) as (a & -> & _). reflexivity. Qed.

Lemma tasks_handle_stream_failure p : tasks (_handle_stream_failure p) = tasks p.
Proof. unfold _handle_stream_failure. simpl. now rewrite tasks_update_remote_state. Qed.

Lemma failures_set_failures i n p :
  (i < length (tasks p))%nat -> failures i (set_failures i n p) = n.
Proof.
  intros H. destruct (lookup_lt_is_Some_2 _ _ H) as [t Ht].
  rewrite (set_failures_tasks _ _ _ _ Ht). unfold failures. simpl.
  now rewrite list_lookup_insert_eq.
Qed.

Lemma failures_finish i p : failures i (finish i p) = failures i p.
Proof.
  unfold failures, finish. simpl.
  destruct (tasks p !! i) as [t|] eqn:E.
  - now rewrite (cancel_and_await_lookup_eq _ _ _ E).
  - unfold cancel_and_await. now rewrite !E.
Qed.

Lemma finished_finish i p :
  (i < length (tasks p))%nat -> finished i (finish i p).
Proof.
  intros H. destruct (lookup_lt_is_Some_2 _ _ H) as [t Ht].
  eexists. split; [apply (cancel_and_await_lookup_eq _ _ _ Ht) | reflexivity].
Qed.

Lemma polling_lt i p : polling i p -> (i < length (tasks p))%nat.
Proof. intros ((t & Ht & _) & _). now apply lookup_lt_Some in Ht. Qed.

Lemma polling_set_failures i n p :
  polling i p -> polling i (set_failures i n p).
Proof.
  intros ((t & Ht & Ha) & Hs & Hc & Hon).
  rewrite (set_failures_tasks _ _ _ _ Ht).
  split; [| now repeat split].
  eexists. simpl. split; [apply list_lookup_insert_eq; now apply lookup_lt_Some in Ht |].
  assumption.
Qed.

(** A finished task does not poll, and an entity that polls is not
    unavailable. *)
Lemma polling_not_unavailable i p :
  polling i p -> STATE (attributes p) <> UNAVAILABLE.
Proof.
  intros (_ & _ & _ & Hon) E. unfold is_on in Hon. now rewrite E in Hon.
Qed.

(** The iteration in which the failure counter reaches [max_failures]. *)
Lemma iter_threshold env i p :
  polling i p -> tick_verdict env = Failed -> max_failures <= failures i p + 1 ->
  _image_stream_loop_iter env i p = finish i (_handle_stream_failure (bump i p)).
Proof.
  intros Hp Hv Hn. rewrite (iter_polling _ _ _ Hp), Hv.
  unfold after_body, bump.
  rewrite failures_set_failures by (now apply polling_lt).
  destruct (Z.leb_spec max_failures (failures i p + 1)); [reflexivity | lia].
Qed.

(** A failed iteration below the threshold. *)
Lemma iter_below_threshold env i p :
  polling i p -> tick_verdict env = Failed -> failures i p + 1 < max_failures ->
  _image_stream_loop_iter env i p =
    if sleep_cancelled env then finish i (bump i p) else bump i p.
Proof.
  intros Hp Hv Hn. rewrite (iter_polling _ _ _ Hp), Hv.
  unfold after_body, bump.
  rewrite failures_set_failures by (now apply polling_lt).
  destruct (Z.leb_spec max_failures (failures i p + 1)); [lia | reflexivity].
Qed.

(** A power-off followed by a power-on, for an entity with a camera. *)
Lemma power_cycle (p : player) c :
  current_client p = Some c ->
  let off := _turn_off p in
  let on := _turn_on (snd off) in
  fst off = OK /\ fst on = OK /\
  STATE (attributes (snd on)) = PLAYING /\
  is_streaming (snd on) = true /\
  stream_task (snd on) = Some (length (tasks p)) /\
  tasks (snd on) !! length (tasks p) = Some fresh_task /\
  polling (length (tasks p)) (snd on).
Proof.
  intros Hc. cbv zeta.
  assert (Hoff : current_client (snd (_turn_off p)) = Some c /\
                 is_streaming (snd (_turn_off p)) = false /\
                 length (tasks (snd (_turn_off p))) = length (tasks p)).
  { unfold _turn_off.
    match goal with
    | |- context [_update_remote_state ?q] =>
        destruct (update_remote_state_frame q) as (a & -> & _)
    end.
    unfold stop_image_streaming. simpl.
    destruct (stream_task p); simpl; rewrite ?cancel_and_await_length; now repeat split. }
  destruct Hoff as (Hc' & Hs' & Hl').
  destruct (turn_on_starts _ c Hc' Hs') as (H1 & H2 & H3 & H4 & H5 & H6).
  rewrite Hl' in H4, H5.
  repeat split; try assumption.
  - exists fresh_task. split; [assumption | reflexivity].
  - rewrite H6. eauto.
  - unfold is_on. now rewrite H2.
Qed.

(** The state in which the unavailable handling leaves the entity. *)
Lemma handle_stream_failure_spec i p :
  let p1 := finish i (_handle_stream_failure p) in
  STATE (attributes p1) = UNAVAILABLE /\
  MEDIA_IMAGE_URL (attributes p1) = "" /\
  MEDIA_ARTIST (attributes p1) = "Camera Offline" /\
  published p1 =
    (if subscribed p then [attrs_to_update (attributes p1)] else []) ++ published p /\
  is_streaming p1 = false /\
  clients p1 = clients p /\
  current_source p1 = current_source p /\
  current_client p1 = current_client p /\
  length (tasks p1) = length (tasks p).
Proof.
  unfold _handle_stream_failure.
  match goal with
  | |- context [_update_remote_state ?q] =>
      destruct (update_remote_state_frame q) as (a & -> & Epub & _)
  end.
  cbn in *. rewrite cancel_and_await_length. now repeat split.
Qed.

(** C6. A failed iteration adds one to the failure counter.  Below the
    threshold of 5 the task goes on polling and the displayed state is
    untouched.  When the counter reaches 5 the loop sets the state to
    [UNAVAILABLE], clears the image, publishes, sets [is_streaming] to
    false and ends, leaving clients and selection as they were; after that
    a power-off followed by a power-on succeeds, sets the state to
    [PLAYING] and starts a new task that polls with its counter at 0. *)
Theorem failure_threshold_and_power_cycle env i p :
  polling i p -> tick_verdict env = Failed ->
  let p1 := _image_stream_loop_iter env i p in
  failures i p1 = failures i p + 1 /\
  (failures i p + 1 < max_failures -> sleep_cancelled env = false ->
     polling i p1 /\ attributes p1 = attributes p /\ published p1 = published p) /\
  (max_failures <= failures i p + 1 ->
     STATE (attributes p1) = UNAVAILABLE /\
     MEDIA_IMAGE_URL (attributes p1) = "" /\
     published p1 =
       (if subscribed p then [attrs_to_update (attributes p1)] else [])
       ++ published p /\
     is_streaming p1 = false /\
     finished i p1 /\
     clients p1 = clients p /\
     current_source p1 = current_source p /\
     current_client p1 = current_client p /\
     let off := _turn_off p1 in
     let on := _turn_on (snd off) in
     fst off = OK /\ fst on = OK /\
     STATE (attributes (snd on)) = PLAYING /\
     is_streaming (snd on) = true /\
     exists j, j <> i /\
               stream_task (snd on) = Some j /\
               tasks (snd on) !! j = Some fresh_task /\
               failures j (snd on) = 0 /\
               polling j (snd on)).
Proof.
  intros Hp Hv. cbv zeta.
  pose proof (polling_lt _ _ Hp) as Hlt.
  destruct (Z.lt_ge_cases (failures i p + 1) max_failures) as [Hn|Hn].
  - rewrite (iter_below_threshold _ _ _ Hp Hv Hn).
    split; [| split; [| lia]].
    + destruct (sleep_cancelled env); rewrite ?failures_finish;
        unfold bump; now rewrite failures_set_failures.
    + intros _ ->. split; [now apply polling_set_failures |].
      destruct Hp as ((t & Ht & _) & _).
      unfold bump. rewrite (set_failures_tasks _ _ _ _ Ht). now split.
  - rewrite (iter_threshold _ _ _ Hp Hv Hn).
    split; [| split; [lia |]].
    + rewrite failures_finish. unfold failures at 1.
      rewrite tasks_handle_stream_failure. fold (failures i (bump i p)).
      unfold bump. now rewrite failures_set_failures.
    + intros _.
      destruct (handle_stream_failure_spec i (bump i p))
        as (H1 & H2 & _ & H4 & H5 & H6 & H7 & H8 & H9).
      assert (Hb : tasks (bump i p) = tasks (set_failures i (failures i p + 1) p))
        by reflexivity.
      destruct Hp as ((t & Ht & Ha) & Hs & [c Hc] & Hon).
      assert (Hbump : forall q, q = bump i p ->
                attributes q = attributes p /\ published q = published p /\
                subscribed q = subscribed p /\ clients q = clients p /\
                current_source q = current_source p /\
                current_client q = current_client p /\
                length (tasks q) = length (tasks p)).
      { intros q ->. unfold bump. rewrite (set_failures_tasks _ _ _ _ Ht).
        simpl. rewrite length_insert. now repeat split. }
      destruct (Hbump _ eq_refl) as (B1 & B2 & B3 & B4 & B5 & B6 & B7).
      rewrite B2, B3 in H4. rewrite B4 in H6. rewrite B5 in H7. rewrite B6 in H8.
      rewrite B7 in H9.
      repeat (split; [assumption |]).
      split.
      { apply finished_finish. rewrite tasks_handle_stream_failure. lia. }
      repeat (split; [assumption |]).
      rewrite Hc in H8.
      destruct (power_cycle _ c H8) as (P1 & P2 & P3 & P4 & P5 & P6 & P7).
      rewrite H9 in P5, P6, P7.
      repeat (split; [assumption |]).
      exists (length (tasks p)).
      split; [lia |]. split; [assumption |]. split; [assumption |].
      split; [| assumption].
      rewrite (failures_lookup _ _ _ P6). reflexivity.
Qed.

(** After four timeouts the task still polls. *)
Lemma polling_after_four_timeouts : polling 0 (after_timeouts 4).
Proof.
  split.
  - exists {| alive := true; consecutive_failures := 4 |}.
    split; vm_compute; reflexivity.
  - split; [vm_compute; reflexivity |].
    split; [| vm_compute; reflexivity].
    exists {| config := camA |}. vm_compute. reflexivity.
Defined.

(** The fifth timeout in a row: the hypotheses of
    [failure_threshold_and_power_cycle] hold and the threshold is reached. *)
Lemma failure_threshold_and_power_cycle_witness :
  let p1 := _image_stream_loop_iter timeout_tick 0 (after_timeouts 4) in
  polling 0 (after_timeouts 4) /\
  tick_verdict timeout_tick = Failed /\
  failures 0 p1 = 5 /\
  STATE (attributes p1) = UNAVAILABLE /\
  is_streaming p1 = false /\
  is_streaming (snd (_turn_on (snd (_turn_off p1)))) = true.
Proof.
  cbv zeta.
  destruct (failure_threshold_and_power_cycle timeout_tick 0 (after_timeouts 4)
              polling_after_four_timeouts eq_refl) as (H1 & _ & H2).
  destruct H2 as (H3 & _ & _ & H4 & _ & _ & _ & _ & _ & _ & _ & H5 & _).
  { vm_compute. discriminate. }
  split; [exact polling_after_four_timeouts |].
  split; [reflexivity |].
  split; [exact H1 |].
  split; [exact H3 |].
  split; [exact H4 | exact H5].
Defined.

(** C9. In an iteration of a polling task, a cancellation that arrives in
    the fetch or in the transcoding ends the task and changes nothing else:
    the failure counter, the attributes, what was published and
    [is_streaming] stay as they were.  A cancellation that arrives in the
    sleep that closes the iteration ends the task and otherwise leaves the
    state the same iteration reaches without it.  The counter grows (by
    one) exactly in a failed iteration, is reset by a successful one and is
    kept by an interrupted one; the state becomes [UNAVAILABLE] only in a
    failed iteration that takes the counter to the threshold. *)
Theorem cancellation_is_not_a_failure env i p :
  polling i p ->
  let p1 := _image_stream_loop_iter env i p in
  (tick_verdict env = Interrupted ->
     p1 = finish i p /\ finished i p1 /\
     failures i p1 = failures i p /\
     attributes p1 = attributes p /\
     published p1 = published p /\
     is_streaming p1 = is_streaming p) /\
  (sleep_cancelled env = true ->
     p1 = finish i (_image_stream_loop_iter (uncancelled env) i p) /\
     finished i p1) /\
  failures i p1 =
    match tick_verdict env with
    | Failed => failures i p + 1
    | Succeeded _ => 0
    | Interrupted => failures i p
    end /\
  (STATE (attributes p1) = UNAVAILABLE <->
     tick_verdict env = Failed /\ max_failures <= failures i p + 1).
Proof.
  intros Hp. cbv zeta.
  pose proof (polling_lt _ _ Hp) as Hlt.
  pose proof (polling_not_unavailable _ _ Hp) as Hav.
  assert (Hv' : tick_verdict (uncancelled env) = tick_verdict env) by reflexivity.
  rewrite !(iter_polling _ _ _ Hp), Hv'.
  destruct (tick_verdict env) as [s| |] eqn:Hv.
  - (* a displayable image *)
    set (q := set_failures i 0 _).
    assert (Hq : failures i q = 0 /\ (i < length (tasks q))%nat /\
                 STATE (attributes q) = STATE (attributes p)).
    { subst q.
      match goal with
      | |- context [_update_remote_state ?r] =>
          destruct (update_remote_state_frame r) as (a & -> & _)
      end.
      rewrite failures_set_failures by exact Hlt.
      destruct Hp as ((t & Ht & _) & _).
      rewrite (set_failures_tasks _ _ _ t) by exact Ht.
      simpl. rewrite length_insert. now repeat split. }
    destruct Hq as (Hq0 & Hql & Hqs).
    unfold after_body. rewrite Hq0. simpl.
    split; [discriminate |].
    split; [intros ->; split; [reflexivity | now apply finished_finish] |].
    split.
    + destruct (sleep_cancelled env); now rewrite ?failures_finish.
    + split; [| intros [? _]; discriminate].
      intros H. exfalso. apply Hav. rewrite <- Hqs.
      now destruct (sleep_cancelled env).
  - (* an ordinary failure *)
    set (q := bump i p).
    assert (Hq : failures i q = failures i p + 1 /\ (i < length (tasks q))%nat /\
                 STATE (attributes q) = STATE (attributes p)).
    { subst q. unfold bump. rewrite failures_set_failures by exact Hlt.
      destruct Hp as ((t & Ht & _) & _).
      rewrite (set_failures_tasks _ _ _ t) by exact Ht.
      simpl. rewrite length_insert. now repeat split. }
    destruct Hq as (Hq0 & Hql & Hqs).
    destruct (handle_stream_failure_spec i q) as (U1 & _ & _ & _ & _ & _ & _ & _ & U9).
    unfold after_body. rewrite Hq0. simpl.
    split; [discriminate |].
    destruct (Z.leb_spec max_failures (failures i p + 1)) as [Hn|Hn].
    + split; [intros _; split; [now rewrite finish_finish |
                                apply finished_finish;
                                now rewrite tasks_handle_stream_failure] |].
      split.
      * rewrite failures_finish. unfold failures at 1.
        rewrite tasks_handle_stream_failure. exact Hq0.
      * split; [intros _; now split | intros _; exact U1].
    + split; [intros ->; split; [reflexivity | now apply finished_finish] |].
      split.
      * destruct (sleep_cancelled env); now rewrite ?failures_finish.
      * split; [| intros [_ ?]; lia].
        intros H. exfalso. apply Hav. rewrite <- Hqs.
        now destruct (sleep_cancelled env).
  - (* cancelled in the fetch or in the transcoding *)
    split.
    + intros _. split; [reflexivity |].
      split; [now apply finished_finish |].
      split; [apply failures_finish |]. now repeat split.
    + split; [intros _; split; [now rewrite finish_finish |
                                now apply finished_finish] |].
      split; [apply failures_finish |].
      split; [intros H; now apply Hav in H | intros [? _]; discriminate].
Qed.

(** A task that has seen two timeouts is cancelled while it waits for the
    camera: it ends with its counter still at 2 and the entity still
    [PLAYING]. *)
Lemma cancellation_is_not_a_failure_witness :
  let p := after_timeouts 2 in
  let p1 := _image_stream_loop_iter cancelled_tick 0 p in
  polling 0 p /\ finished 0 p1 /\ failures 0 p1 = 2 /\
  STATE (attributes p1) = PLAYING.
Proof.
  cbv zeta.
  assert (Hp : polling 0 (after_timeouts 2)).
  { split.
    - exists {| alive := true; consecutive_failures := 2 |}.
      split; vm_compute; reflexivity.
    - split; [vm_compute; reflexivity |].
      split; [| vm_compute; reflexivity].
      exists {| config := camA |}. vm_compute. reflexivity. }
  destruct (cancellation_is_not_a_failure cancelled_tick 0 (after_timeouts 2) Hp)
    as (H1 & _ & _ & _).
  destruct (H1 eq_refl) as (_ & Hf & Hn & Ha & _).
  split; [exact Hp |].
  split; [exact Hf |].
  split; [rewrite Hn; vm_compute; reflexivity |].
  rewrite Ha. vm_compute. reflexivity.
Defined.

(** ** At most one polling task *)

Lemma quiet_single_owner p : quiet p -> single_owner p.
Proof. intros Hq j Hj. now apply Hq in Hj. Qed.

Lemma single_owner_ext p q :
  alive <$> tasks q = alive <$> tasks p ->
  stream_task q = stream_task p ->
  is_streaming q = is_streaming p ->
  single_owner p -> single_owner q.
Proof.
  intros Ht Hs Hb H j Hj. rewrite Ht in Hj. rewrite Hs, Hb. now apply H.
Qed.

Lemma alive_cancel_and_await i ts :
  alive <$> cancel_and_await i ts = <[i := false]> (alive <$> ts).
Proof.
  unfold cancel_and_await. destruct (ts !! i) as [t|] eqn:E.
  - now rewrite list_fmap_insert.
  - symmetry. apply list_insert_ge. rewrite length_fmap.
    now apply lookup_ge_None in E.
Qed.

(** Once the owner has finished, nothing runs. *)
Lemma quiet_after_owner_finishes (bs : list bool) i :
  (forall j, bs !! j = Some true -> j = i) ->
  forall j, <[i := false]> bs !! j <> Some true.
Proof.
  intros H j Hj. destruct (decide (i = j)) as [->|Hne].
  - destruct (decide (j < length bs)%nat) as [Hlt|Hge].
    + rewrite list_lookup_insert_eq in Hj by assumption. discriminate.
    + rewrite list_insert_ge in Hj by lia.
      apply lookup_lt_Some in Hj. lia.
  - rewrite list_lookup_insert_ne in Hj by assumption.
    apply H in Hj. congruence.
Qed.

Lemma single_owner_unique p j :
  single_owner p -> (alive <$> tasks p) !! j = Some true ->
  forall k, (alive <$> tasks p) !! k = Some true -> k = j.
Proof.
  intros H Hj k Hk. apply H in Hj. apply H in Hk.
  destruct Hj as [Hj _], Hk as [Hk _]. congruence.
Qed.

Lemma quiet_stop p : single_owner p -> quiet (stop_image_streaming p).
Proof.
  intros H. unfold stop_image_streaming, quiet. simpl.
  destruct (stream_task p) as [i|] eqn:Ei; simpl.
  - rewrite alive_cancel_and_await. apply quiet_after_owner_finishes.
    intros j Hj. apply H in Hj. destruct Hj as [Hj _]. congruence.
  - intros j Hj. apply H in Hj. destruct Hj as [Hj _]. congruence.
Qed.

Lemma single_owner_start p : single_owner p -> single_owner (start_image_streaming p).
Proof.
  intros H. unfold start_image_streaming.
  destruct (is_streaming p) eqn:Es; [assumption |].
  destruct (current_client p); [| assumption].
  intros j Hj. simpl in *. split; [| reflexivity].
  rewrite fmap_app in Hj.
  destruct (decide (j < length (tasks p))%nat) as [Hlt|Hge].
  - rewrite lookup_app_l in Hj by (now rewrite length_fmap).
    apply H in Hj. destruct Hj as [_ Hj]. congruence.
  - apply lookup_lt_Some in Hj. rewrite length_app, length_fmap in Hj.
    simpl in Hj. f_equal. lia.
Qed.

Lemma single_owner_update_remote_state p :
  single_owner p -> single_owner (_update_remote_state p).
Proof.
  destruct (update_remote_state_frame p) as (a & -> & _).
  now apply single_owner_ext.
Qed.

Lemma single_owner_turn_on p : single_owner p -> single_owner (snd (_turn_on p)).
Proof.
  intros H. unfold _turn_on. destruct (current_client p); [| assumption].
  simpl. apply single_owner_start, single_owner_update_remote_state.
  revert H. now apply single_owner_ext.
Qed.

Lemma single_owner_turn_off p : single_owner p -> single_owner (snd (_turn_off p)).
Proof.
  intros H. unfold _turn_off. simpl.
  apply single_owner_update_remote_state.
  apply (single_owner_ext (stop_image_streaming p)); try reflexivity.
  now apply quiet_single_owner, quiet_stop.
Qed.

Lemma single_owner_select_source o p :
  single_owner p -> single_owner (snd (_select_source o p)).
Proof.
  intros H. unfold _select_source.
  destruct o as [n|]; [| assumption].
  destruct (bool_decide (n = "")); [assumption |].
  destruct (clients p !! n) as [c|]; [| assumption].
  set (p1 := if is_streaming p then stop_image_streaming p else p).
  assert (H1 : single_owner p1).
  { subst p1. destruct (is_streaming p); [| assumption].
    now apply quiet_single_owner, quiet_stop. }
  match goal with
  | |- context [_update_remote_state ?q] =>
      assert (H2 : single_owner (_update_remote_state q))
  end.
  { apply single_owner_update_remote_state. revert H1. now apply single_owner_ext. }
  match goal with
  | |- context [is_on ?q] => destruct (is_on q)
  end; simpl; [now apply single_owner_start | assumption].
Qed.

Lemma alive_set_failures i n p :
  alive <$> tasks (set_failures i n p) = alive <$> tasks p.
Proof.
  unfold set_failures. destruct (tasks p !! i) as [t|] eqn:E; [| reflexivity].
  simpl. rewrite list_fmap_insert. simpl.
  apply list_insert_id. now rewrite list_lookup_fmap, E.
Qed.

Lemma keeps_or_ends_finish i p q :
  (alive <$> tasks p) !! i = Some true ->
  alive <$> tasks q = alive <$> tasks p -> keeps_or_ends i p (finish i q).
Proof.
  intros Hi H. right. split; [assumption |].
  unfold finish. simpl. now rewrite alive_cancel_and_await, H.
Qed.

Lemma keeps_or_ends_after_body env i p q :
  (alive <$> tasks p) !! i = Some true ->
  alive <$> tasks q = alive <$> tasks p ->
  stream_task q = stream_task p -> is_streaming q = is_streaming p ->
  keeps_or_ends i p (after_body env i q).
Proof.
  intros Hi Ht Hs Hb. unfold after_body.
  destruct (max_failures <=? failures i q).
  - apply keeps_or_ends_finish; [assumption |].
    now rewrite tasks_handle_stream_failure.
  - destruct (sleep_cancelled env); [now apply keeps_or_ends_finish | now left].
Qed.

Lemma keeps_or_ends_iter env i p :
  keeps_or_ends i p (_image_stream_loop_iter env i p).
Proof.
  unfold _image_stream_loop_iter.
  destruct (tasks p !! i) as [t|] eqn:Et; [| now left].
  destruct (alive t) eqn:Ea; simpl; [| now left].
  assert (Hi : (alive <$> tasks p) !! i = Some true)
    by (now rewrite list_lookup_fmap, Et; simpl; rewrite Ea).
  assert (Hbump : keeps_or_ends i p (after_body env i (bump i p))).
  { apply keeps_or_ends_after_body; try assumption;
      unfold bump; rewrite ?alive_set_failures;
      try reflexivity; unfold set_failures; now rewrite Et. }
  destruct (is_streaming p && bool_decide (is_Some (current_client p))); simpl;
    [| now apply keeps_or_ends_finish].
  destruct (is_on p); simpl; [| now apply keeps_or_ends_finish].
  destruct (snapshot env) as [x| |];
    [| exact Hbump | now apply keeps_or_ends_finish].
  destruct (Client.get_snapshot x) as [[|b d]|]; try exact Hbump.
  destruct (optimized env) as [o| |];
    [| exact Hbump | now apply keeps_or_ends_finish].
  destruct (truthy o); [| exact Hbump].
  match goal with
  | |- context [_update_remote_state ?q] =>
      destruct (update_remote_state_frame q) as (a & -> & _)
  end.
  apply keeps_or_ends_after_body; try assumption;
    rewrite ?alive_set_failures; try reflexivity;
    unfold set_failures; simpl; now rewrite Et.
Qed.

Lemma single_owner_iter env i p :
  single_owner p -> single_owner (_image_stream_loop_iter env i p).
Proof.
  intros H.
  destruct (keeps_or_ends_iter env i p) as [(Ht & Hs & Hb) | (Hi & Hend)].
  - revert H. now apply single_owner_ext.
  - apply quiet_single_owner. intros j. rewrite Hend.
    apply quiet_after_owner_finishes.
    intros k Hk. now apply (single_owner_unique p i).
Qed.

Lemma single_owner_init a cfg : single_owner (init a cfg).
Proof. intros j Hj. simpl in Hj. now rewrite lookup_nil in Hj. Qed.

Lemma single_owner_step e p : single_owner p -> single_owner (step e p).
Proof.
  intros H. destruct e as [c o|env i|]; simpl.
  - destruct c; simpl;
      [now apply single_owner_turn_on | now apply single_owner_turn_off
      | now apply single_owner_select_source | assumption].
  - now apply single_owner_iter.
  - now apply quiet_single_owner, quiet_stop.
Qed.

Lemma single_owner_reachable p : reachable p -> single_owner p.
Proof.
  intros (a & cfg & es & ->).
  generalize (single_owner_init a cfg). generalize (init a cfg).
  induction es as [|e es IH]; intros q Hq; [assumption |].
  apply IH. now apply single_owner_step.
Qed.

(** Counting the running tasks. *)
Lemma alive_tasks_quiet p : quiet p -> alive_tasks p = 0%nat.
Proof.
  unfold quiet, alive_tasks. induction (tasks p) as [|t ts IH]; intros H;
    [reflexivity |].
  rewrite filter_cons. destruct (decide (alive t = true)) as [Ht|Ht].
  - exfalso. apply (H 0%nat). simpl. now rewrite Ht.
  - apply IH. intros j. exact (H (S j)).
Qed.

Lemma alive_tasks_single_owner p : single_owner p -> (alive_tasks p <= 1)%nat.
Proof.
  intros H.
  assert (Hu : forall j k, (alive <$> tasks p) !! j = Some true ->
                           (alive <$> tasks p) !! k = Some true -> j = k).
  { intros j k Hj Hk. symmetry. now apply (single_owner_unique p j). }
  clear H. unfold alive_tasks. induction (tasks p) as [|t ts IH]; [simpl; lia |].
  rewrite filter_cons. destruct (decide (alive t = true)) as [Ht|Ht].
  - assert (Hq : forall j, (alive <$> ts) !! j <> Some true).
    { intros j Hj. specialize (Hu 0%nat (S j)). simpl in Hu.
      rewrite Ht in Hu. specialize (Hu eq_refl Hj). discriminate. }
    simpl. clear IH Hu. induction ts as [|t' ts IH]; [simpl; lia |].
    rewrite filter_cons. destruct (decide (alive t' = true)) as [Ht'|Ht'].
    + exfalso. apply (Hq 0%nat). simpl. now rewrite Ht'.
    + apply IH. intros j. exact (Hq (S j)).
  - apply IH. intros j k Hj Hk. specialize (Hu (S j) (S k) Hj Hk). lia.
Qed.

(** C8. [start_image_streaming] does nothing when the entity already
    streams, and nothing when no camera is selected.
    [stop_image_streaming] does nothing when the entity does not stream and
    holds no task; it always leaves [stream_task] empty and [is_streaming]
    false, so that a start after it (with a camera selected) creates a
    fresh task and makes it the stream task.  In every reachable state at
    most one polling task is running, also right after a start, and none
    after a stop. *)
Theorem start_stop_single_task (p : player) :
  (is_streaming p = true -> start_image_streaming p = p) /\
  (current_client p = None -> start_image_streaming p = p) /\
  (is_streaming p = false -> stream_task p = None -> stop_image_streaming p = p) /\
  (stream_task (stop_image_streaming p) = None /\
   is_streaming (stop_image_streaming p) = false) /\
  (is_Some (current_client p) ->
     let p' := start_image_streaming (stop_image_streaming p) in
     is_streaming p' = true /\
     stream_task p' = Some (length (tasks p)) /\
     tasks p' !! length (tasks p) = Some fresh_task /\
     length (tasks p') = S (length (tasks p))) /\
  (reachable p ->
     (alive_tasks p <= 1)%nat /\
     (alive_tasks (start_image_streaming p) <= 1)%nat /\
     alive_tasks (stop_image_streaming p) = 0%nat /\
     (alive_tasks (start_image_streaming (stop_image_streaming p)) <= 1)%nat).
Proof.
  repeat split.
  - intros H. unfold start_image_streaming. now rewrite H.
  - intros H. unfold start_image_streaming. rewrite H. now destruct (is_streaming p).
  - intros Hs Ht. unfold stop_image_streaming. simpl. rewrite Ht.
    destruct p; simpl in *. now subst.
  - unfold stop_image_streaming. simpl. now destruct (stream_task p) eqn:E.
  - unfold stop_image_streaming. simpl. now destruct (stream_task p) eqn:E.
  - destruct H as [c Hc]. unfold start_image_streaming, stop_image_streaming.
    simpl. destruct (stream_task p); simpl; now rewrite Hc.
  - destruct H as [c Hc]. unfold start_image_streaming, stop_image_streaming.
    simpl. destruct (stream_task p); simpl; rewrite Hc; simpl;
      now rewrite ?cancel_and_await_length.
  - destruct H as [c Hc]. unfold start_image_streaming, stop_image_streaming.
    simpl. destruct (stream_task p); simpl; rewrite Hc; simpl;
      apply list_lookup_middle; now rewrite ?cancel_and_await_length.
  - destruct H as [c Hc]. unfold start_image_streaming, stop_image_streaming.
    simpl. destruct (stream_task p); simpl; rewrite Hc; simpl;
      rewrite length_app, ?cancel_and_await_length; simpl; lia.
  - now apply alive_tasks_single_owner, single_owner_reachable.
  - now apply alive_tasks_single_owner, single_owner_start, single_owner_reachable.
  - now apply alive_tasks_quiet, quiet_stop, single_owner_reachable.
  - apply alive_tasks_single_owner, single_owner_start, quiet_single_owner,
      quiet_stop. now apply single_owner_reachable.
Qed.

(** A streaming entity whose source is switched twice and which is then
    switched off and on again is reachable: one task runs at the end, and
    three have finished. *)
Lemma start_stop_single_task_witness :
  let p := run [Command CMD_ON None;
                Command CMD_SELECT_SOURCE (Some "B");
                Iteration timeout_tick 1;
                Command CMD_SELECT_SOURCE (Some "A");
                Command CMD_OFF None;
                Command CMD_ON None] two_cameras in
  reachable p /\ length (tasks p) = 4%nat /\ alive_tasks p = 1%nat /\
  (alive_tasks (start_image_streaming p) <= 1)%nat.
Proof.
  cbv zeta.
  match goal with |- reachable ?q /\ _ => set (p := q) end.
  assert (Hr : reachable p) by (do 3 eexists; reflexivity).
  destruct (start_stop_single_task p) as (_ & _ & _ & _ & _ & H).
  destruct (H Hr) as (_ & H2 & _).
  split; [exact Hr |].
  split; [vm_compute; reflexivity |].
  split; [vm_compute; reflexivity | exact H2].
Defined.

End MediaPlayerFacts.

(* ===================================================================== *)
(** * Properties of the camera selector *)
(* ===================================================================== *)

Section CameraSelectFacts.
Import Ucapi CameraSelect.

Lemma published_update_remote_state_select e :
  published (_update_remote_state e) =
    (if subscribed e then [CURRENT_OPTION e] else []) ++ published e.
Proof. destruct e as [[[[] ups]|] opts cur]; reflexivity. Qed.

(** What [_select_camera] does with a non-empty name among the options. *)
Lemma select_camera_valid (n : string) (w : entities) :
  n <> "" -> n ∈ OPTIONS (selector w) ->
  let r := fst (_select_camera (Some n) w) in
  let w' := snd (_select_camera (Some n) w) in
  CURRENT_OPTION (selector w') = n /\
  OPTIONS (selector w') = OPTIONS (selector w) /\
  published (selector w') =
    (if subscribed (selector w) then [n] else []) ++ published (selector w) /\
  match media_player w with
  | None => r = SERVER_ERROR /\ media_player w' = None
  | Some mp =>
      r = fst (MediaPlayer._select_source (Some n) mp) /\
      media_player w' = Some (snd (MediaPlayer._select_source (Some n) mp))
  end.
Proof.
  intros Hne Hin. unfold _select_camera.
  rewrite bool_decide_eq_false_2 by assumption.
  rewrite bool_decide_eq_true_2 by assumption. cbn [orb negb].
  destruct w as [sel [mp|]]; cbn [media_player selector] in *.
  - destruct (MediaPlayer._select_source (Some n) mp) as [r mp'].
    cbn [fst snd media_player selector].
    rewrite published_update_remote_state_select.
    repeat split; now destruct sel as [[[[] ups]|] opts cur].
  - cbn [fst snd media_player selector].
    rewrite published_update_remote_state_select.
    repeat split; now destruct sel as [[[[] ups]|] opts cur].
Qed.

(** C1, the claim as written fails.  Without a media player the selector
    returns [SERVER_ERROR] for the option "B", yet it already shows and has
    published "B"; with a media player that knows camera "A" only, the
    player's [BAD_REQUEST] is returned and the selector shows "B" all the
    same. *)
Lemma selector_updates_before_player_confirms :
  let w1 := {| selector := showing ["A"; "B"] "A"; media_player := None |} in
  let w2 := {| selector := showing ["A"; "B"] "A";
               media_player := Some (MediaPlayer.init None [MediaPlayer.camA]) |} in
  (fst (_select_camera (Some "B") w1) = SERVER_ERROR /\
   CURRENT_OPTION (selector (snd (_select_camera (Some "B") w1))) = "B" /\
   published (selector (snd (_select_camera (Some "B") w1))) = ["B"]) /\
  (fst (_select_camera (Some "B") w2) = BAD_REQUEST /\
   CURRENT_OPTION (selector (snd (_select_camera (Some "B") w2))) = "B" /\
   published (selector (snd (_select_camera (Some "B") w2))) = ["B"]).
Proof. vm_compute. repeat split. Qed.

(** C1 (as the code has it). A name that is missing, empty or not among
    the options gets [BAD_REQUEST]; nothing changes and the media player is
    not called.  For a non-empty option the selector first sets
    [CURRENT_OPTION] to the name and publishes it, then calls the media
    player's [_select_source] and returns its status as it is, or
    [SERVER_ERROR] when it has no media player; whatever the status, the
    selector keeps showing the requested name. *)
Theorem select_camera_spec (w : entities) :
  _select_camera None w = (BAD_REQUEST, w) /\
  _select_camera (Some "") w = (BAD_REQUEST, w) /\
  (forall n, n ∉ OPTIONS (selector w) ->
             _select_camera (Some n) w = (BAD_REQUEST, w)) /\
  (forall n, n <> "" -> n ∈ OPTIONS (selector w) ->
     let r := fst (_select_camera (Some n) w) in
     let w' := snd (_select_camera (Some n) w) in
     CURRENT_OPTION (selector w') = n /\
     OPTIONS (selector w') = OPTIONS (selector w) /\
     published (selector w') =
       (if subscribed (selector w) then [n] else []) ++ published (selector w) /\
     match media_player w with
     | None => r = SERVER_ERROR /\ media_player w' = None
     | Some mp =>
         r = fst (MediaPlayer._select_source (Some n) mp) /\
         media_player w' = Some (snd (MediaPlayer._select_source (Some n) mp))
     end).
Proof.
  split; [reflexivity |]. split; [reflexivity |]. split.
  - intros n Hn. unfold _select_camera.
    rewrite (bool_decide_eq_false_2 (n ∈ _)) by assumption.
    now rewrite orb_true_r.
  - intros n. apply select_camera_valid.
Qed.

(** ** Next and previous *)

Lemma index_lookup (l : list string) x i :
  index l x = Some i -> l !! i = Some x.
Proof.
  revert i. induction l as [|y l IH]; intros i; simpl; [discriminate |].
  destruct (bool_decide_reflect (y = x)) as [->|Hne].
  - now intros [= <-].
  - destruct (index l x) as [k|]; simpl; [| discriminate].
    intros [= <-]. now apply IH.
Qed.

Lemma index_first (l : list string) x i :
  index l x = Some i -> forall j, (j < i)%nat -> l !! j <> Some x.
Proof.
  revert i. induction l as [|y l IH]; intros i; simpl; [discriminate |].
  destruct (bool_decide_reflect (y = x)) as [->|Hne].
  - intros [= <-] j Hj. lia.
  - destruct (index l x) as [k|] eqn:E; simpl; [| discriminate].
    intros [= <-] [|j] Hj; simpl; [congruence |].
    apply (IH k eq_refl). lia.
Qed.

Lemma index_elem_of (l : list string) x :
  x ∈ l -> exists i, index l x = Some i.
Proof.
  induction l as [|y l IH]; [intros H; inversion H |].
  intros H. simpl. destruct (bool_decide_reflect (y = x)) as [->|Hne]; [eauto |].
  apply elem_of_cons in H. destruct H as [->|H]; [congruence |].
  destruct (IH H) as [i ->]. simpl. eauto.
Qed.

(** With distinct names [index] finds the position one started from. *)
Lemma index_NoDup (l : list string) x i :
  NoDup l -> l !! i = Some x -> index l x = Some i.
Proof.
  intros Hnd Hi.
  destruct (index_elem_of l x) as [k Hk];
    [now apply list_elem_of_lookup; exists i |].
  rewrite Hk. f_equal.
  apply index_lookup in Hk. now apply (NoDup_lookup l k i x).
Qed.

Lemma item_in_range (l : list string) k :
  0 <= k -> item l k = l !! Z.to_nat k.
Proof.
  intros H. unfold item. destruct (Z.leb_spec 0 k); [reflexivity | lia].
Qed.

(** The directional commands in terms of positions. *)
Lemma select_next_position (w : entities) i x y :
  "" ∉ OPTIONS (selector w) ->
  index (OPTIONS (selector w)) (CURRENT_OPTION (selector w)) = Some i ->
  OPTIONS (selector w) !! i = Some x ->
  OPTIONS (selector w)
    !! Z.to_nat ((Z.of_nat i + 1) mod Z.of_nat (length (OPTIONS (selector w)))) = Some y ->
  _select_next_camera w = _select_camera (Some y) w /\
  CURRENT_OPTION (selector (snd (_select_next_camera w))) = y /\
  OPTIONS (selector (snd (_select_next_camera w))) = OPTIONS (selector w).
Proof.
  intros Hne Hi Hx Hy. unfold _select_next_camera. rewrite Hi.
  assert (Hlen : (i < length (OPTIONS (selector w)))%nat)
    by (now apply lookup_lt_Some in Hx).
  rewrite item_in_range by (apply Z.mod_pos_bound; lia).
  rewrite Hy. split; [reflexivity |].
  assert (Hin : y ∈ OPTIONS (selector w)) by (apply list_elem_of_lookup; eauto).
  assert (Hy0 : y <> "") by (intros ->; contradiction).
  destruct (select_camera_valid y w Hy0 Hin) as (H1 & H2 & _). now split.
Qed.

Lemma select_previous_position (w : entities) i x y :
  "" ∉ OPTIONS (selector w) ->
  index (OPTIONS (selector w)) (CURRENT_OPTION (selector w)) = Some i ->
  OPTIONS (selector w) !! i = Some x ->
  OPTIONS (selector w)
    !! Z.to_nat ((Z.of_nat i - 1) mod Z.of_nat (length (OPTIONS (selector w)))) = Some y ->
  _select_previous_camera w = _select_camera (Some y) w /\
  CURRENT_OPTION (selector (snd (_select_previous_camera w))) = y /\
  OPTIONS (selector (snd (_select_previous_camera w))) = OPTIONS (selector w).
Proof.
  intros Hne Hi Hx Hy. unfold _select_previous_camera. rewrite Hi.
  assert (Hlen : (i < length (OPTIONS (selector w)))%nat)
    by (now apply lookup_lt_Some in Hx).
  rewrite item_in_range by (apply Z.mod_pos_bound; lia).
  rewrite Hy. split; [reflexivity |].
  assert (Hin : y ∈ OPTIONS (selector w)) by (apply list_elem_of_lookup; eauto).
  assert (Hy0 : y <> "") by (intros ->; contradiction).
  destruct (select_camera_valid y w Hy0 Hin) as (H1 & H2 & _). now split.
Qed.

(** C5, the claim as written fails when a name occurs twice: from "B" in
    the options A, B, A the next option is the second "A", whose position
    [index] reports as 0, so the previous option is the last one, "A", and
    not "B". *)
Lemma round_trip_fails_with_duplicates :
  let w := {| selector := showing ["A"; "B"; "A"] "B"; media_player := None |} in
  (2 <= length (OPTIONS (selector w)))%nat /\
  CURRENT_OPTION (selector w) ∈ OPTIONS (selector w) /\
  CURRENT_OPTION (selector (next_then_previous w)) = "A" /\
  CURRENT_OPTION (selector (next_then_previous w)) <> CURRENT_OPTION (selector w).
Proof.
  cbv zeta. split; [simpl; lia |].
  split; [apply (bool_decide_unpack _); vm_compute; exact I |].
  split; [vm_compute; reflexivity | vm_compute; discriminate].
Qed.

(** C5 (as the code has it). When the options are pairwise distinct and
    none is empty, there are at least two of them and the current option is
    one of them, [SelectNext] followed by [SelectPrevious] shows the
    original option again; [SelectNext] from the last option shows the
    first, and [SelectPrevious] from the first shows the last.  This holds
    whatever the media player answers. *)
Theorem next_previous_round_trip (w : entities) :
  NoDup (OPTIONS (selector w)) ->
  "" ∉ OPTIONS (selector w) ->
  (2 <= length (OPTIONS (selector w)))%nat ->
  CURRENT_OPTION (selector w) ∈ OPTIONS (selector w) ->
  CURRENT_OPTION (selector (next_then_previous w)) = CURRENT_OPTION (selector w) /\
  (last (OPTIONS (selector w)) = Some (CURRENT_OPTION (selector w)) ->
     Some (CURRENT_OPTION (selector (snd (_select_next_camera w))))
       = head (OPTIONS (selector w))) /\
  (head (OPTIONS (selector w)) = Some (CURRENT_OPTION (selector w)) ->
     Some (CURRENT_OPTION (selector (snd (_select_previous_camera w))))
       = last (OPTIONS (selector w))).
Proof.
  intros Hnd Hne Hlen Hin.
  set (opts := OPTIONS (selector w)) in *.
  set (cur := CURRENT_OPTION (selector w)) in *.
  set (n := Z.of_nat (length opts)).
  assert (Hn : 2 <= n) by (subst n; lia).
  destruct (index_elem_of opts cur Hin) as [i Hi].
  pose proof (index_lookup _ _ _ Hi) as Hcur.
  pose proof (lookup_lt_Some _ _ _ Hcur) as Hilt.
  (* the option after the current one *)
  assert (Hnx : exists y, opts !! Z.to_nat ((Z.of_nat i + 1) mod n) = Some y).
  { apply lookup_lt_is_Some_2.
    pose proof (Z.mod_pos_bound (Z.of_nat i + 1) n). lia. }
  destruct Hnx as [y Hy].
  destruct (select_next_position w i cur y Hne Hi Hcur Hy) as (_ & Hcy & Hoy).
  (* the option before the current one *)
  assert (Hpv : exists z, opts !! Z.to_nat ((Z.of_nat i - 1) mod n) = Some z).
  { apply lookup_lt_is_Some_2.
    pose proof (Z.mod_pos_bound (Z.of_nat i - 1) n). lia. }
  destruct Hpv as [z Hz].
  destruct (select_previous_position w i cur z Hne Hi Hcur Hz) as (_ & Hcz & _).
  split; [| split].
  - (* round trip *)
    unfold next_then_previous.
    set (w1 := snd (_select_next_camera w)) in *.
    assert (Hi1 : index (OPTIONS (selector w1)) (CURRENT_OPTION (selector w1))
                  = Some (Z.to_nat ((Z.of_nat i + 1) mod n))).
    { rewrite Hoy, Hcy. now apply index_NoDup. }
    assert (Hback : OPTIONS (selector w1)
              !! Z.to_nat ((Z.of_nat (Z.to_nat ((Z.of_nat i + 1) mod n)) - 1)
                           mod Z.of_nat (length (OPTIONS (selector w1))))
              = Some cur).
    { rewrite Hoy. fold opts. fold n.
      pose proof (Z.mod_pos_bound (Z.of_nat i + 1) n).
      rewrite Z2Nat.id by lia.
      rewrite Zminus_mod_idemp_l.
      replace (Z.of_nat i + 1 - 1) with (Z.of_nat i) by lia.
      rewrite Z.mod_small by lia. now rewrite Nat2Z.id. }
    assert (Hne1 : "" ∉ OPTIONS (selector w1)) by (now rewrite Hoy).
    assert (Hy1 : OPTIONS (selector w1) !! Z.to_nat ((Z.of_nat i + 1) mod n) = Some y)
      by (now rewrite Hoy).
    now destruct (select_previous_position w1 _ y cur Hne1 Hi1 Hy1 Hback)
      as (_ & ? & _).
  - (* from the last to the first *)
    intros Hlast. rewrite Hcy. rewrite head_lookup. rewrite <- Hy.
    rewrite last_lookup in Hlast.
    assert (i = pred (length opts)) by (now apply (NoDup_lookup opts _ _ cur)).
    f_equal. subst i n.
    replace (Z.of_nat (pred (length opts)) + 1) with (Z.of_nat (length opts)) by lia.
    now rewrite Z.mod_same by lia.
  - (* from the first to the last *)
    intros Hhead. rewrite Hcz. rewrite last_lookup. rewrite <- Hz.
    rewrite head_lookup in Hhead.
    assert (i = 0%nat) by (now apply (NoDup_lookup opts _ _ cur)).
    f_equal. subst i n. simpl Z.of_nat.
    replace (0 - 1) with (-1) by lia.
    rewrite <- (Z.mod_add (-1) 1) by lia.
    rewrite Z.mod_small by lia. lia.
Qed.

(** Three distinct cameras, the last one current: the hypotheses of
    [next_previous_round_trip] hold, and next wraps to the first. *)
Lemma next_previous_round_trip_witness :
  let w := {| selector := showing ["A"; "B"; "C"] "C"; media_player := None |} in
  CURRENT_OPTION (selector (next_then_previous w)) = "C" /\
  CURRENT_OPTION (selector (snd (_select_next_camera w))) = "A".
Proof.
  cbv zeta.
  match goal with
  | |- CURRENT_OPTION (selector (next_then_previous ?x)) = _ /\ _ => set (w := x)
  end.
  destruct (next_previous_round_trip w) as (H1 & H2 & _).
  - apply (bool_decide_unpack _). vm_compute. exact I.
  - apply (bool_decide_unpack _). vm_compute. exact I.
  - simpl. lia.
  - apply (bool_decide_unpack _). vm_compute. exact I.
  - split; [exact H1 |].
    specialize (H2 eq_refl).
    change (head (OPTIONS (selector w))) with (Some "A") in H2.
    exact (inj Some _ _ H2).
Defined.

End CameraSelectFacts.
